(** * A shallow embedding of the authenticated chat relay (main.py)

    The program is a FastAPI application with three handlers (register,
    login, chat) over a MongoDB collection of users, PyJWT bearer tokens and
    one call to the OpenAI chat-completion API.

    Handlers are embedded as computations in a state-and-exception monad
    over a [World]: the users collection, the UTC clock, the behaviour of
    the completion provider and the log of the calls made to it.  The
    libraries the handlers call (PyJWT, pymongo and the MongoDB server
    behind it, FastAPI's HTTPBearer, Starlette's router and CORS
    middleware, the OpenAI client) are embedded next to them, at the level
    the handlers observe. *)

From Stdlib Require Import ZArith Lia Ascii String List SpecFloat.
From stdpp Require Import base decidable option strings list gmap pretty.

Local Open Scope string_scope.
Local Open Scope list_scope.
Local Open Scope Z_scope.

#[local] Set Warnings "-register-all".

(** ** Python values and exceptions *)

(** The values a JSON claim or a query operand can hold, as [json.loads]
    gives them to Python: [None], [bool], [int], [float] (a binary float,
    with the infinities and the NaN that [json.loads] accepts), [str],
    [list] and [dict] (the members of an object in their order). *)
Inductive value : Type :=
| VNone
| VBool (b : bool)
| VInt (z : Z)
| VFloat (f : spec_float)
| VStr (s : string)
| VArr (items : list value)
| VObj (members : list (string * value)).

(** Exceptions that can leave a handler: FastAPI's [HTTPException], which
    becomes the HTTP error response, and any other Python exception, which
    the server answers with a plain 500. *)
Inductive exn : Type :=
| HTTPException (status_code : Z) (detail : string)
| PyException (cls : string) (msg : string).

#[global] Instance exn_eq_dec : EqDecision exn.
Proof. solve_decision. Defined.

(** [str(e)]: Starlette prints an [HTTPException] as "status: detail"; any
    other exception prints its message. *)
Definition str (e : exn) : string :=
  match e with
  | HTTPException status_code detail => pretty status_code +:+ ": " +:+ detail
  | PyException _ msg => msg
  end.

Inductive Result (A : Type) : Type :=
| Return (a : A)
| Raise (e : exn).
Arguments Return {A} a.
Arguments Raise {A} e.

(** ** Data model *)

(** A document of the [users] collection, as [register_user] builds it. *)
Record User : Type := mkUser {
  name : string;
  email : string;
  password : string
}.

#[global] Instance User_eq_dec : EqDecision User.
Proof. solve_decision. Defined.

(** The pydantic request models. [EmailStr] is validated by the framework
    before a handler runs; the handlers themselves treat it as a string. *)
Record RegisterRequest : Type := mkRegisterRequest {
  reg_name : string;
  reg_email : string;
  reg_password : string
}.

Record LoginRequest : Type := mkLoginRequest {
  login_email : string;
  login_password : string
}.

Record ChatRequest : Type := mkChatRequest {
  message : string
}.

(** ** Tokens *)

Record Header : Type := mkHeader {
  typ : string;
  alg : string
}.

#[global] Instance Header_eq_dec : EqDecision Header.
Proof. solve_decision. Defined.

(** The claim set of a token: a JSON object, from the name of a claim to
    its value. *)
Abbreviation Payload := (gmap string value).

(** A bearer credential as PyJWT sees it.  [Garbage raw] is a string that
    is not a compact JWS with a decodable header and a JSON-object payload.
    [Jws si h p s] is one: [si] is its signing input (the first two
    segments as received), [h] and [p] are the header and claims decoded
    from them, [s] is the decoded signature segment. *)
Inductive Token : Type :=
| Garbage (raw : string)
| Jws (signing_input : string) (header : Header) (payload : Payload)
      (signature : string).

(** PyJWT's exception classes.  Every one of them is a subclass of
    [InvalidTokenError]. *)
Inductive PyJWTError : Type :=
| DecodeError
| InvalidSignatureError
| InvalidAlgorithmError
| ExpiredSignatureError
| ImmatureSignatureError
| InvalidIssuedAtError
| InvalidAudienceError
| InvalidSubjectError
| InvalidJTIError.

#[global] Instance PyJWTError_eq_dec : EqDecision PyJWTError.
Proof. solve_decision. Defined.

(** Outcome of a call into PyJWT: a value, one of its own exceptions, or
    an exception of Python's [int] that PyJWT does not catch: the
    [TypeError] of [int(None)] (with the name of the type of the
    argument) and the [OverflowError] of [int] on an infinite float. *)
Inductive jwt_result (A : Type) : Type :=
| JwtOk (a : A)
| JwtRaise (e : PyJWTError)
| JwtTypeError (type_name : string)
| JwtOverflowError.
Arguments JwtOk {A} a.
Arguments JwtRaise {A} e.
Arguments JwtTypeError {A} type_name.
Arguments JwtOverflowError {A}.

Definition jwt_bind {A B} (m : jwt_result A) (k : A → jwt_result B)
  : jwt_result B :=
  match m with
  | JwtOk a => k a
  | JwtRaise e => JwtRaise e
  | JwtTypeError type_name => JwtTypeError type_name
  | JwtOverflowError => JwtOverflowError
  end.

(** ** The completion provider *)

Record ChatMessage : Type := mkChatMessage {
  role : string;
  content : string
}.

Record CompletionRequest : Type := mkCompletionRequest {
  model : string;
  messages : list ChatMessage
}.

(** A choice of a completion; its message content is [None] when the
    provider sends no text. *)
Record Choice : Type := mkChoice {
  choice_content : option string
}.

(** What one call of [chat.completions.create] does: it raises (with the
    text [str(e)] of the provider's error) or returns the choices. *)
Inductive ProviderReply : Type :=
| ProviderError (cls : string) (text : string)
| Completion (choices : list Choice).

(** ** The world a request runs in *)

(** The range of Python's [datetime], in whole seconds since the epoch:
    from the first second of year 1 to the last second of year 9999. *)
Definition DATETIME_MIN : Z := -62135596800.
Definition DATETIME_MAX : Z := 253402300799.

(** The last whole second the system clock can show: it counts signed
    64-bit nanoseconds since the epoch. *)
Definition CLOCK_MAX : Z := 9223372036.

(** A reading [now] of the clock, and a reading [elapsed] seconds before
    it, are readings of a clock that starts at the epoch. *)
Definition plausible_clock (now : Z) (elapsed : nat) : bool :=
  (0 <=? now - Z.of_nat elapsed) && (now <=? CLOCK_MAX).

(** [utcnow] is the clock as the request reads it, in whole seconds since
    the epoch (the resolution at which PyJWT stores and compares times).
    Where a request reads the clock twice, as [create_jwt] does, [utcnow]
    is the second reading and the first one was [elapsed] whole seconds
    before it: the two calls are not one instant, and each is truncated
    to the second on its own.  The clock is taken not to go back, within
    a request as along a run. *)
Record World : Type := mkWorld {
  users_col : list User;
  utcnow : Z;
  elapsed : nat;
  clock_ok : plausible_clock utcnow elapsed = true;
  openai : CompletionRequest → ProviderReply;
  calls : list CompletionRequest
}.

(** The earlier of the two readings of the clock. *)
Definition first_reading (w : World) : Z := utcnow w - Z.of_nat (elapsed w).

(** The handler monad: state passing with exceptions; the state reached
    when an exception is raised is kept, as Python keeps it. *)
Definition M (A : Type) : Type := World → Result A * World.

Definition ret {A} (a : A) : M A := fun w => (Return a, w).

Definition raise {A} (e : exn) : M A := fun w => (Raise e, w).

Definition bind {A B} (m : M A) (k : A → M B) : M B :=
  fun w =>
    match m w with
    | (Return a, w') => k a w'
    | (Raise e, w') => (Raise e, w')
    end.

Notation "x <~ m ;; k" := (bind m (fun x => k))
  (at level 100, m at next level, right associativity).

(** [try: body except Exception as e: handler e]. *)
Definition try_except {A} (body : M A) (handler : exn → M A) : M A :=
  fun w =>
    match body w with
    | (Return a, w') => (Return a, w')
    | (Raise e, w') => handler e w'
    end.

(** A pure computation that returns or raises. *)
Definition lift {A} (r : Result A) : M A := fun w => (r, w).

(** ** The environment of the program *)

(** What the program takes from its environment: HMAC-SHA256 (key, then
    message), the compact serialization PyJWT signs (the base64url header
    and payload segments joined by a dot), Python's [int] on a string
    ([None] where it raises [ValueError]), the configured secret, a
    string PyJWT accepts as an HMAC key, the query operators of the
    MongoDB server (for an operator document, the text with which the
    server refuses it or the set of strings it selects), the exception
    with which the driver refuses a value it cannot encode, and the text
    of the [OverflowError] of [timedelta] for a number of hours. *)
Class Environment : Type := mkEnvironment {
  hmac_sha256 : string → string → string;
  serialize : Header → Payload → string;
  int_of_str : string → option Z;
  SECRET_KEY : string;
  query_operators : list (string * value) → string + (string → bool);
  encode_error : value → exn;
  timedelta_overflow : Z → string
}.

(** ** The store: pymongo on the [users] collection *)

Section Store.

Context {env : Environment}.

(** The name of a query operator starts with a dollar. *)
Definition is_operator (k : string) : bool :=
  match k with
  | String "$" _ => true
  | _ => false
  end.

Definition NUL : ascii := ascii_of_nat 0.

Fixpoint has_nul (k : string) : bool :=
  match k with
  | EmptyString => false
  | String c k' => bool_decide (c = NUL) || has_nul k'
  end.

(** The driver can encode the value as BSON: its integers fit in eight
    bytes and no key of its objects holds a NUL character. *)
Fixpoint encodable (v : value) : bool :=
  match v with
  | VInt z => (- 2 ^ 63 <=? z) && (z <? 2 ^ 63)
  | VArr items => forallb encodable items
  | VObj members =>
      forallb (fun kv => match kv with
                         | (k, v') => negb (has_nul k) && encodable v'
                         end) members
  | _ => true
  end.

(** The filter [{"email": q}] as the driver and the server read it: the
    exception with which the query is refused, or the test the server
    applies to a document.  The stored field is a string, so of the
    operands that stand for equality ([None], a number, a boolean, an
    array, an object whose first key is not an operator) only an equal
    string matches.  An object whose first key is an operator is an
    operator document such as [{"$ne": None}]. *)
Definition compile_filter (q : value) : exn + (User → bool) :=
  if negb (encodable q) then inl (encode_error q)
  else
    match q with
    | VStr s => inr (fun u => bool_decide (email u = s))
    | VObj ((k, v) :: members) =>
        if is_operator k
        then match query_operators ((k, v) :: members) with
             | inl text => inl (PyException "OperationFailure" text)
             | inr selects => inr (fun u => selects (email u))
             end
        else inr (fun _ => false)
    | _ => inr (fun _ => false)
    end.

(** Does a document match the filter [{"email": q}]? *)
Definition email_matches (q : value) (u : User) : bool :=
  match compile_filter q with
  | inr test => test u
  | inl _ => false
  end.

(** [users_col.find_one({"email": q})]: the first matching document in
    insertion order, or [None]; the exception of the driver when it
    cannot encode the query, [OperationFailure] when the server refuses
    it. *)
Definition find_one (q : value) : M (option User) :=
  match compile_filter q with
  | inl e => raise e
  | inr _ =>
      fun w => (Return (List.find (email_matches q) (users_col w)), w)
  end.

End Store.

(** [users_col.insert_one(doc)]: appends the document. *)
Definition insert_one (doc : User) : M unit :=
  fun w =>
    (Return tt,
     {| users_col := users_col w ++ [doc];
        utcnow := utcnow w;
        elapsed := elapsed w;
        clock_ok := clock_ok w;
        openai := openai w;
        calls := calls w |}).

(** [datetime.datetime.utcnow()], in whole seconds since the epoch: the
    reading of a request that reads the clock once, and the second
    reading of one that reads it twice. *)
Definition datetime_utcnow : M Z :=
  fun w => (Return (utcnow w), w).

(** [datetime.datetime.utcnow()], for the first of two readings. *)
Definition datetime_utcnow_first : M Z :=
  fun w => (Return (first_reading w), w).

(** [datetime.timedelta(hours=h)], in seconds: a [timedelta] holds at
    most 999999999 days, of either sign. *)
Definition timedelta (hours : Z) (overflow : string) : Result Z :=
  if Z.abs (hours / 24) <=? 999999999
  then Return (hours * 3600)
  else Raise (PyException "OverflowError" overflow).

(** [t + delta], for a [datetime] and a [timedelta]. *)
Definition datetime_add (t delta : Z) : Result Z :=
  if (DATETIME_MIN <=? t + delta) && (t + delta <=? DATETIME_MAX)
  then Return (t + delta)
  else Raise (PyException "OverflowError" "date value out of range").

(** [openai_client.chat.completions.create(model=..., messages=...)]: one
    call to the provider, recorded in the log of calls. *)
Definition completions_create (rq : CompletionRequest) : M (list Choice) :=
  fun w =>
    let w' := {| users_col := users_col w;
                 utcnow := utcnow w;
                 elapsed := elapsed w;
                 clock_ok := clock_ok w;
                 openai := openai w;
                 calls := calls w ++ [rq] |} in
    match openai w rq with
    | ProviderError cls text => (Raise (PyException cls text), w')
    | Completion choices => (Return choices, w')
    end.

(** [choices[0]]: Python raises [IndexError] on an empty list. *)
Definition first_choice (choices : list Choice) : M Choice :=
  match choices with
  | [] => raise (PyException "IndexError" "list index out of range")
  | c :: _ => ret c
  end.

(** ** Responses *)

Record MessageResponse : Type := mkMessageResponse {
  resp_message : string
}.

Record LoginResponse : Type := mkLoginResponse {
  login_message : string;
  token : Token
}.

Record ChatResponse : Type := mkChatResponse {
  user : string;
  reply : option string
}.

(** ** FastAPI's bearer scheme *)

(** The status with which [HTTPBearer] (fastapi/security/http.py) refuses a
    request. *)
Definition HTTP_401_UNAUTHORIZED : Z := 401.

Definition lower_ascii (c : ascii) : ascii :=
  let n := nat_of_ascii c in
  if ((65 <=? n)%nat && (n <=? 90)%nat)%bool then ascii_of_nat (n + 32) else c.

(** [scheme.lower()], on the letters that matter for the comparison with
    "bearer". *)
Fixpoint lower (s : string) : string :=
  match s with
  | EmptyString => EmptyString
  | String c s' => String (lower_ascii c) (lower s')
  end.

(** The [Authorization] header after [get_authorization_scheme_param]:
    absent, or a scheme and the credentials that follow the first space. *)
Definition Authorization : Type := option (string * Token).

(** The credentials are the empty string. *)
Definition empty_credentials (credentials : Token) : bool :=
  match credentials with
  | Garbage "" => true
  | _ => false
  end.

(** [security = HTTPBearer()], with [auto_error] left at [True]: a request
    without an [Authorization] header, with an empty scheme or empty
    credentials, or with a scheme other than bearer is refused with the
    same error. *)
Definition security (authorization : Authorization) : M Token :=
  match authorization with
  | None => raise (HTTPException HTTP_401_UNAUTHORIZED "Not authenticated")
  | Some (scheme, credentials) =>
      if bool_decide (scheme = "") || empty_credentials credentials
      then raise (HTTPException HTTP_401_UNAUTHORIZED "Not authenticated")
      else if negb (bool_decide (lower scheme = "bearer"))
      then raise (HTTPException HTTP_401_UNAUTHORIZED "Not authenticated")
      else ret credentials
  end.

Section Relay.

Context {env : Environment}.

(** *** PyJWT *)

Inductive int_result : Type :=
| IntOk (z : Z)
| IntValueError
| IntTypeError (type_name : string)
| IntOverflowError.

(** [int(f)] for a float: the integer part of a finite one. *)
Definition int_of_float (f : spec_float) : int_result :=
  match f with
  | S754_zero _ => IntOk 0
  | S754_finite s m e =>
      let magnitude := Z.shiftl (Z.pos m) e in
      IntOk (if s then - magnitude else magnitude)
  | S754_infinity _ => IntOverflowError
  | S754_nan => IntValueError
  end.

(** Python's [int(v)]. *)
Definition py_int (v : value) : int_result :=
  match v with
  | VInt z => IntOk z
  | VBool b => IntOk (if b then 1 else 0)
  | VFloat f => int_of_float f
  | VStr s => match int_of_str s with
              | Some z => IntOk z
              | None => IntValueError
              end
  | VNone => IntTypeError "NoneType"
  | VArr _ => IntTypeError "list"
  | VObj _ => IntTypeError "dict"
  end.

(** [try: int(payload[c]) except ValueError: raise err]. *)
Definition claim_int (v : value) (err : PyJWTError) : jwt_result Z :=
  match py_int v with
  | IntOk z => JwtOk z
  | IntValueError => JwtRaise err
  | IntTypeError type_name => JwtTypeError type_name
  | IntOverflowError => JwtOverflowError
  end.

(** Python truthiness of a value. *)
Definition truthy (v : value) : bool :=
  match v with
  | VNone => false
  | VBool b => b
  | VInt z => negb (z =? 0)
  | VFloat (S754_zero _) => false
  | VFloat _ => true
  | VStr s => negb (bool_decide (s = ""))
  | VArr items => negb (bool_decide (items = []))
  | VObj members => negb (bool_decide (members = []))
  end.

Definition is_str (v : value) : bool :=
  match v with
  | VStr _ => true
  | _ => false
  end.

Definition validate_iat (payload : Payload) (now : Z) : jwt_result unit :=
  match payload !! "iat" with
  | None => JwtOk tt
  | Some v =>
      jwt_bind (claim_int v InvalidIssuedAtError) (fun iat =>
      if now <? iat then JwtRaise ImmatureSignatureError else JwtOk tt)
  end.

Definition validate_nbf (payload : Payload) (now : Z) : jwt_result unit :=
  match payload !! "nbf" with
  | None => JwtOk tt
  | Some v =>
      jwt_bind (claim_int v DecodeError) (fun nbf =>
      if now <? nbf then JwtRaise ImmatureSignatureError else JwtOk tt)
  end.

Definition validate_exp (payload : Payload) (now : Z) : jwt_result unit :=
  match payload !! "exp" with
  | None => JwtOk tt
  | Some v =>
      jwt_bind (claim_int v DecodeError) (fun exp =>
      if exp <=? now then JwtRaise ExpiredSignatureError else JwtOk tt)
  end.

(** No audience is passed to [jwt.decode]: a token that names one is
    refused. *)
Definition validate_aud (payload : Payload) : jwt_result unit :=
  match payload !! "aud" with
  | None => JwtOk tt
  | Some v => if truthy v then JwtRaise InvalidAudienceError else JwtOk tt
  end.

Definition validate_sub (payload : Payload) : jwt_result unit :=
  match payload !! "sub" with
  | None => JwtOk tt
  | Some v => if is_str v then JwtOk tt else JwtRaise InvalidSubjectError
  end.

Definition validate_jti (payload : Payload) : jwt_result unit :=
  match payload !! "jti" with
  | None => JwtOk tt
  | Some v => if is_str v then JwtOk tt else JwtRaise InvalidJTIError
  end.

(** [_validate_claims] under the default options of PyJWT 2: nothing is
    required; iat, nbf, exp, aud, sub and jti are checked, in this order,
    when the token carries them (no issuer is expected, so iss is not). *)
Definition validate_claims (payload : Payload) (now : Z) : jwt_result unit :=
  jwt_bind (validate_iat payload now) (fun _ =>
  jwt_bind (validate_nbf payload now) (fun _ =>
  jwt_bind (validate_exp payload now) (fun _ =>
  jwt_bind (validate_aud payload) (fun _ =>
  jwt_bind (validate_sub payload) (fun _ =>
  validate_jti payload))))).

(** [jwt.encode(payload, key, algorithm="HS256")]. *)
Definition jwt_encode (payload : Payload) (key : string) : Token :=
  let header := {| typ := "JWT"; alg := "HS256" |} in
  let signing_input := serialize header payload in
  Jws signing_input header payload (hmac_sha256 key signing_input).

(** [jwt.decode(token, key, algorithms=["HS256"])] at time [now]:
    structure, then algorithm, then signature, then the claims. *)
Definition jwt_decode (token : Token) (key : string) (now : Z)
  : jwt_result Payload :=
  match token with
  | Garbage _ => JwtRaise DecodeError
  | Jws signing_input header payload signature =>
      if negb (bool_decide (alg header = "HS256"))
      then JwtRaise InvalidAlgorithmError
      else if negb (bool_decide (signature = hmac_sha256 key signing_input))
      then JwtRaise InvalidSignatureError
      else jwt_bind (validate_claims payload now) (fun _ => JwtOk payload)
  end.

(** *** Helper functions of main.py *)

(** [create_jwt(email, expires_hours=2)].  The dictionary is built from
    left to right: the clock is read for "exp", the hours are added to
    that reading (Python raises [OverflowError] when the [timedelta] or
    the sum is out of range), and the clock is read again for "iat".
    PyJWT stores the two datetimes as whole seconds since the epoch and,
    from version 2 on, returns the token as a [str], so that the [bytes]
    branch does nothing. *)
Definition create_jwt (email : string) (expires_hours : Z) : M Token :=
  t_exp <~ datetime_utcnow_first ;;
  delta <~ lift (timedelta expires_hours (timedelta_overflow expires_hours)) ;;
  exp <~ lift (datetime_add t_exp delta) ;;
  t_iat <~ datetime_utcnow ;;
  let payload : Payload :=
    <["email" := VStr email]>
      (<["exp" := VInt exp]>
         (<["iat" := VInt t_iat]> ∅)) in
  ret (jwt_encode payload SECRET_KEY).

(** [decode_jwt(token)]: the [except] clauses are tried in order, so
    [ExpiredSignatureError] is told apart from the other subclasses of
    [InvalidTokenError]; anything else propagates. *)
Definition decode_jwt (token : Token) : M Payload :=
  now <~ datetime_utcnow ;;
  match jwt_decode token SECRET_KEY now with
  | JwtOk payload => ret payload
  | JwtRaise ExpiredSignatureError =>
      raise (HTTPException 401 "Token expired")
  | JwtRaise _ => raise (HTTPException 401 "Invalid token")
  | JwtTypeError type_name =>
      raise (PyException "TypeError"
               ("int() argument must be a string, a bytes-like object or a real number, not '"
                +:+ type_name +:+ "'"))
  | JwtOverflowError =>
      raise (PyException "OverflowError"
               "cannot convert float infinity to integer")
  end.

(** [payload.get(key)]. *)
Definition dict_get (payload : Payload) (key : string) : value :=
  default VNone (payload !! key).

(** *** Routes *)

Definition register_user (req : RegisterRequest) : M MessageResponse :=
  existing <~ find_one (VStr (reg_email req)) ;;
  match existing with
  | Some _ => raise (HTTPException 400 "Email already registered")
  | None =>
      let user_doc := {| name := reg_name req;
                         email := reg_email req;
                         password := reg_password req |} in
      _ <~ insert_one user_doc ;;
      ret {| resp_message := "User registered successfully" |}
  end.

Definition login_user (req : LoginRequest) : M LoginResponse :=
  found <~ find_one (VStr (login_email req)) ;;
  match found with
  | None => raise (HTTPException 401 "Invalid credentials")
  | Some u =>
      if negb (bool_decide (password u = login_password req))
      then raise (HTTPException 401 "Invalid credentials")
      else
        tok <~ create_jwt (login_email req) 2 ;;
        ret {| login_message := "Login successful"; token := tok |}
  end.

Definition get_current_user (credentials : Token) : M User :=
  payload <~ decode_jwt credentials ;;
  let email := dict_get payload "email" in
  found <~ find_one email ;;
  match found with
  | None => raise (HTTPException 401 "User not found")
  | Some u => ret u
  end.

Definition system_prompt (u : User) : string :=
  "You are a helpful assistant for user " +:+ name u +:+ ".".

Definition chat (req : ChatRequest) (u : User) : M ChatResponse :=
  try_except
    (choices <~ completions_create
       {| model := "gpt-4o-mini";
          messages := [ {| role := "system"; content := system_prompt u |};
                        {| role := "user"; content := message req |} ] |} ;;
     c <~ first_choice choices ;;
     ret {| user := name u; reply := choice_content c |})
    (fun e => raise (HTTPException 500 ("OpenAI error: " +:+ str e))).

(** [Depends(get_current_user)]: FastAPI first resolves the dependency of
    the dependency, [Depends(security)]. *)
Definition depends_get_current_user (authorization : Authorization)
  : M User :=
  credentials <~ security authorization ;;
  get_current_user credentials.

(** [POST /chat] as FastAPI runs it on a body that is a [ChatRequest]:
    the dependency first, the handler only when it has given a user. *)
Definition post_chat (authorization : Authorization) (req : ChatRequest)
  : M ChatResponse :=
  u <~ depends_get_current_user authorization ;;
  chat req u.


(** The request carries the bearer token [tok]. *)
Definition bearer (authorization : Authorization) (tok : Token) : Prop :=
  ∃ scheme, authorization = Some (scheme, tok)
            ∧ lower scheme = "bearer" ∧ tok ≠ Garbage "".

(** *** Reading a token *)

(** [tok] is a well-formed token over the claims [p], under HS256, whose
    signature is the MAC of its signing input under the configured
    secret. *)
Definition well_signed (tok : Token) (p : Payload) : Prop :=
  ∃ si h, tok = Jws si h p (hmac_sha256 SECRET_KEY si) ∧ alg h = "HS256".

(** The expiry of the claim set [p] is an integer that [now] has reached. *)
Definition exp_passed (p : Payload) (now : Z) : Prop :=
  ∃ v x, p !! "exp" = Some v ∧ py_int v = IntOk x ∧ x ≤ now.



(** What [decode_jwt] makes of PyJWT's verdict on the claims. *)
Definition verdict (p : Payload) (r : jwt_result unit) : Result Payload :=
  match r with
  | JwtOk _ => Return p
  | JwtRaise ExpiredSignatureError =>
      Raise (HTTPException 401 "Token expired")
  | JwtRaise _ => Raise (HTTPException 401 "Invalid token")
  | JwtTypeError type_name =>
      Raise (PyException "TypeError"
               ("int() argument must be a string, a bytes-like object or a real number, not '"
                +:+ type_name +:+ "'"))
  | JwtOverflowError =>
      Raise (PyException "OverflowError"
               "cannot convert float infinity to integer")
  end.

(** *** The HTTP surface and the runs of the system *)

Inductive Request : Type :=
| PostRegister (req : RegisterRequest)
| PostLogin (req : LoginRequest)
| PostChat (authorization : Authorization) (req : ChatRequest).

Inductive Response : Type :=
| Registered (r : MessageResponse)
| LoggedIn (r : LoginResponse)
| Chatted (r : ChatResponse).

Definition handle (rq : Request) : M Response :=
  match rq with
  | PostRegister req => r <~ register_user req ;; ret (Registered r)
  | PostLogin req => r <~ login_user req ;; ret (LoggedIn r)
  | PostChat authorization req =>
      r <~ post_chat authorization req ;; ret (Chatted r)
  end.

(** One step of the system: a request is served, or the environment moves
    (the clock advances, the provider changes its behaviour) while the
    store and the log stay as they are. *)
Inductive step : World → World → Prop :=
| step_request (rq : Request) (w : World) :
    step w (snd (handle rq w))
| step_environment (w : World) (now' : Z) (elapsed' : nat)
                   (ok : plausible_clock now' elapsed' = true)
                   (openai' : CompletionRequest → ProviderReply) :
    utcnow w ≤ now' →
    step w {| users_col := users_col w;
              utcnow := now';
              elapsed := elapsed';
              clock_ok := ok;
              openai := openai';
              calls := calls w |}.

Definition reachable : World → World → Prop := rtc step.

(** ** Reading the store *)

(** The server accepts the filter [{"email": q}]. *)
Definition accepted (q : value) : Prop :=
  ∃ test, compile_filter q = inr test.

(** No document matches the filter [{"email": q}]. *)
Definition no_match (users : list User) (q : value) : Prop :=
  accepted q ∧ Forall (fun u => email_matches q u = false) users.

(** [u] is the document the filter [{"email": q}] resolves to: the first
    one that matches. *)
Definition first_match (users : list User) (q : value) (u : User) : Prop :=
  ∃ l1 l2, users = l1 ++ u :: l2 ∧ no_match l1 q ∧ email_matches q u = true.

End Relay.

(** No stored user has the email [e]. *)
Definition unknown_email (users : list User) (e : string) : Prop :=
  Forall (fun u => email u ≠ e) users.

(** [u] is the user stored under the email [e]: the first document with
    that email. *)
Definition stored_under (users : list User) (e : string) (u : User) : Prop :=
  ∃ l1 l2, users = l1 ++ u :: l2 ∧ unknown_email l1 e ∧ email u = e.

(** The claim set of the specification for a token issued to [e] at time
    [now]: the email, the issue time, and an expiry two hours later. *)
Definition issued_payload (e : string) (now : Z) : Payload :=
  <["email" := VStr e]>
    (<["iat" := VInt now]> (<["exp" := VInt (now + 7200)]> ∅)).

Definition issued_header : Header := {| typ := "JWT"; alg := "HS256" |}.

(** The request [chat] sends to the provider for a user and a message. *)
Definition completion_request (u : User) (req : ChatRequest)
  : CompletionRequest :=
  {| model := "gpt-4o-mini";
     messages := [ {| role := "system";
                      content := "You are a helpful assistant for user "
                                 +:+ name u +:+ "." |};
                   {| role := "user"; content := message req |} ] |}.

(** The world after one more call to the provider. *)
Definition after_call (w : World) (rq : CompletionRequest) : World :=
  {| users_col := users_col w;
     utcnow := utcnow w;
     elapsed := elapsed w;
     clock_ok := clock_ok w;
     openai := openai w;
     calls := calls w ++ [rq] |}.

(** The world after one more document in the store. *)
Definition after_insert (w : World) (doc : User) : World :=
  {| users_col := users_col w ++ [doc];
     utcnow := utcnow w;
     elapsed := elapsed w;
     clock_ok := clock_ok w;
     openai := openai w;
     calls := calls w |}.

(** The claim set [create_jwt] builds for an email, an expiry and an
    issue time. *)
Definition claims_for (e : string) (exp iat : Z) : Payload :=
  <["email" := VStr e]>
    (<["exp" := VInt exp]>
       (<["iat" := VInt iat]> ∅)).

(** [create_jwt] can build the expiry of a token of [hours] hours from
    the reading [t] of the clock: Python can hold the [timedelta] and the
    [datetime]. *)
Definition representable (hours t : Z) : Prop :=
  Z.abs (hours / 24) ≤ 999999999
  ∧ DATETIME_MIN ≤ t + hours * 3600 ≤ DATETIME_MAX.

(** ** Start-up: the configuration of main.py *)

Module Startup.

(** [load_dotenv()]: the variables of the .env file are added to the
    environment of the process; a variable the process already has is
    kept, whatever its value. *)
Definition load_dotenv (os_environ dotenv : gmap string string)
  : gmap string string :=
  os_environ ∪ dotenv.

(** [os.getenv(key)]. *)
Definition getenv (environ : gmap string string) (key : string)
  : option string :=
  environ !! key.

(** [os.getenv(key, default)]. *)
Definition getenv_default (environ : gmap string string)
           (key default_value : string) : string :=
  default default_value (environ !! key).

(** [not v], for [v] a string or [None]. *)
Definition is_falsy (v : option string) : bool :=
  match v with
  | None => true
  | Some s => bool_decide (s = "")
  end.

(** The module-level settings, as [os.getenv] leaves them. *)
Record Settings : Type := mkSettings {
  MONGO_URI : option string;
  DB_NAME : string;
  SECRET_KEY : option string;
  OPENAI_API_KEY : option string
}.

(** Lines 14 to 22 of main.py: the settings are read and checked.  The
    import of the module stops here unless the three required ones are
    there; after the check it goes on to lines 25 to 48, which can fail on
    their own and are not part of this function. *)
Definition load_settings (os_environ dotenv : gmap string string)
  : Result Settings :=
  let environ := load_dotenv os_environ dotenv in
  let MONGO_URI := getenv environ "MONGO_URI" in
  let DB_NAME := getenv_default environ "DB_NAME" "user_db" in
  let SECRET_KEY := getenv environ "SECRET_KEY" in
  let OPENAI_API_KEY := getenv environ "OPENAI_API_KEY" in
  if is_falsy MONGO_URI || is_falsy SECRET_KEY || is_falsy OPENAI_API_KEY
  then Raise (PyException "RuntimeError"
                "❌ Missing required environment variables in .env")
  else Return {| MONGO_URI := MONGO_URI;
                 DB_NAME := DB_NAME;
                 SECRET_KEY := SECRET_KEY;
                 OPENAI_API_KEY := OPENAI_API_KEY |}.

(** The value a variable has for the program: the one of the process if
    the process has the variable, else the one of the .env file. *)
Definition effective (os_environ dotenv : gmap string string) (key : string)
  : option string :=
  match os_environ !! key with
  | Some v => Some v
  | None => dotenv !! key
  end.

End Startup.

(** ** Routing: the routes of the application, as Starlette matches them *)

Module Routing.

(** What a route hands a request to: the pages FastAPI adds on its own,
    the static files application, and the five endpoints of main.py. *)
Inductive Endpoint : Type :=
| openapi
| swagger_ui_html
| swagger_ui_redirect
| redoc_html
| StaticFiles
| serve_root
| register_user
| login_user
| chat
| home.

Inductive BaseRoute : Type :=
| Route (path : string) (methods : list string) (endpoint : Endpoint)
| Mount (path : string) (app : Endpoint).

(** The routes in the order of their registration: those of
    [FastAPI(...)] (a plain Starlette route answers GET and HEAD), then
    the mount and the decorated functions of main.py from top to bottom. *)
Definition routes : list BaseRoute :=
  [ Route "/openapi.json" ["GET"; "HEAD"] openapi;
    Route "/docs" ["GET"; "HEAD"] swagger_ui_html;
    Route "/docs/oauth2-redirect" ["GET"; "HEAD"] swagger_ui_redirect;
    Route "/redoc" ["GET"; "HEAD"] redoc_html;
    Mount "/static" StaticFiles;
    Route "/" ["GET"] serve_root;
    Route "/register" ["POST"] register_user;
    Route "/login" ["POST"] login_user;
    Route "/chat" ["POST"] chat;
    Route "/" ["GET"] home ].

Definition LF : ascii := ascii_of_nat 10.

(** The regular expression of a path without parameters, [^path$]: in
    Python [$] also matches before a final line feed. *)
Definition matches_exact (pattern path : string) : bool :=
  bool_decide (path = pattern)
  || bool_decide (path = pattern +:+ String LF EmptyString).

(** The regular expression dot-star-dollar: any characters but a line
    feed, then the end or a final line feed. *)
Fixpoint dot_star_end (s : string) : bool :=
  match s with
  | EmptyString => true
  | String c s' =>
      if bool_decide (c = LF) then bool_decide (s' = EmptyString)
      else dot_star_end s'
  end.

Fixpoint strip_prefix (prefix s : string) : option string :=
  match prefix with
  | EmptyString => Some s
  | String c prefix' =>
      match s with
      | EmptyString => None
      | String d s' =>
          if bool_decide (c = d) then strip_prefix prefix' s' else None
      end
  end.

(** The regular expression of a mount: the prefix, a slash, then the
    path parameter, which is any text [dot_star_end] accepts. *)
Definition matches_mount (prefix path : string) : bool :=
  match strip_prefix (prefix +:+ "/") path with
  | Some rest => dot_star_end rest
  | None => false
  end.

Inductive Match : Type :=
| NONE
| PARTIAL
| FULL.

Definition allowed (methods : list string) (method : string) : bool :=
  bool_decide (method ∈ methods).

(** [route.matches(scope)], for an HTTP request. *)
Definition matches (r : BaseRoute) (method path : string) : Match :=
  match r with
  | Route pattern methods _ =>
      if matches_exact pattern path
      then if negb (bool_decide (methods = [])) && negb (allowed methods method)
           then PARTIAL
           else FULL
      else NONE
  | Mount prefix _ =>
      if matches_mount prefix path then FULL else NONE
  end.

(** What the application does with a request: the router calls an
    endpoint, answers 405 with the methods of the route, redirects or
    answers 404; the CORS middleware answers a preflight in plain text. *)
Inductive Outcome : Type :=
| Call (endpoint : Endpoint)
| MethodNotAllowed (allow : list string)
| RedirectResponse (url : string)
| NotFound
| PlainTextResponse (status_code : Z) (content : string).

(** [route.handle(scope, ...)]. *)
Definition handle_route (r : BaseRoute) (method : string) : Outcome :=
  match r with
  | Route _ methods endpoint =>
      if negb (bool_decide (methods = [])) && negb (allowed methods method)
      then MethodNotAllowed methods
      else Call endpoint
  | Mount _ app => Call app
  end.

(** The loop of [Router.app]: the first full match, and the first partial
    match met before it. *)
Fixpoint scan (rs : list BaseRoute) (method path : string)
         (partial : option BaseRoute)
  : option BaseRoute * option BaseRoute :=
  match rs with
  | [] => (None, partial)
  | r :: rs' =>
      match matches r method path with
      | FULL => (Some r, partial)
      | PARTIAL =>
          scan rs' method path
               (match partial with Some _ => partial | None => Some r end)
      | NONE => scan rs' method path partial
      end
  end.

(** [path.endswith("/")]. *)
Fixpoint endswith_slash (s : string) : bool :=
  match s with
  | EmptyString => false
  | String c EmptyString => bool_decide (c = "/"%char)
  | String _ s' => endswith_slash s'
  end.

(** [path.rstrip("/")]. *)
Fixpoint rstrip_slash (s : string) : string :=
  match s with
  | EmptyString => EmptyString
  | String c s' =>
      let r := rstrip_slash s' in
      if bool_decide (r = EmptyString) && bool_decide (c = "/"%char)
      then EmptyString
      else String c r
  end.

Definition matches_any (rs : list BaseRoute) (method path : string) : bool :=
  existsb (fun r => match matches r method path with
                    | NONE => false
                    | _ => true
                    end) rs.

(** [Router.app], with [redirect_slashes] left at [True]. *)
Definition router (method path : string) : Outcome :=
  match scan routes method path None with
  | (Some r, _) => handle_route r method
  | (None, Some r) => handle_route r method
  | (None, None) =>
      if negb (bool_decide (path = "/"))
      then
        let redirect_path :=
          if endswith_slash path then rstrip_slash path else path +:+ "/" in
        if matches_any routes method redirect_path
        then RedirectResponse redirect_path
        else NotFound
      else NotFound
  end.

(** The methods [allow_methods=["*"]] stands for. *)
Definition ALL_METHODS : list string :=
  ["DELETE"; "GET"; "HEAD"; "OPTIONS"; "PATCH"; "POST"; "PUT"].

(** [CORSMiddleware.preflight_response], as main.py configures the
    middleware: every origin and every header is allowed, so that only the
    requested method can be refused. *)
Definition preflight_response (access_control_request_method : string)
  : Outcome :=
  if bool_decide (access_control_request_method ∈ ALL_METHODS)
  then PlainTextResponse 200 "OK"
  else PlainTextResponse 400 "Disallowed CORS method".

(** The application as a request meets it: the CORS middleware of lines
    35 to 41 stands in front of the router.  A request with an [Origin]
    header, the method OPTIONS and an [Access-Control-Request-Method]
    header is a preflight, which the middleware answers itself; any
    other request goes to the router (the middleware then only adds
    headers to the response). *)
Definition application (method path : string)
           (origin access_control_request_method : option string)
  : Outcome :=
  match origin, access_control_request_method with
  | Some _, Some requested =>
      if bool_decide (method = "OPTIONS")
      then preflight_response requested
      else router method path
  | _, _ => router method path
  end.

(** The paths main.py serves with a function of its own that can be
    reached, each with its method and its endpoint. *)
Definition api : list (string * string * Endpoint) :=
  [ ("/register", "POST", register_user);
    ("/login", "POST", login_user);
    ("/chat", "POST", chat);
    ("/", "GET", serve_root) ].

(** What the two functions registered for [GET /] return. *)
Inductive RootResponse : Type :=
| FileResponse (path : string)
| JSONResponse (body : MessageResponse).

Definition serve_root_body : RootResponse := FileResponse "build/index.html".

Definition home_body : RootResponse :=
  JSONResponse
    {| resp_message := "✅ FastAPI Chatbot running successfully!" |}.

End Routing.

(** ** A concrete environment, to run the model *)

Definition show_float (f : spec_float) : string :=
  match f with
  | S754_zero _ => "0.0"
  | S754_infinity false => "Infinity"
  | S754_infinity true => "-Infinity"
  | S754_nan => "NaN"
  | S754_finite s m e =>
      (if s then "-" else "") +:+ pretty (Z.pos m) +:+ "p" +:+ pretty e
  end.

Fixpoint show_value (v : value) : string :=
  match v with
  | VNone => "null"
  | VBool true => "true"
  | VBool false => "false"
  | VInt z => pretty z
  | VFloat f => show_float f
  | VStr s => s
  | VArr items => "[" +:+ String.concat "," (map show_value items) +:+ "]"
  | VObj members =>
      "{" +:+ String.concat ","
                (map (fun kv => match kv with
                                | (k, v') => k +:+ ":" +:+ show_value v'
                                end) members) +:+ "}"
  end.

Definition demo_serialize (h : Header) (p : Payload) : string :=
  typ h +:+ "/" +:+ alg h +:+ "."
  +:+ String.concat ";"
        ((fun kv : string * value => kv.1 +:+ "=" +:+ show_value kv.2)
           <$> map_to_list p).

Definition demo_hmac (key msg : string) : string := key +:+ "#" +:+ msg.

Fixpoint demo_digits (s : string) (acc : Z) : option Z :=
  match s with
  | EmptyString => Some acc
  | String c s' =>
      let n := Z.of_nat (nat_of_ascii c) in
      if (48 <=? n) && (n <=? 57) then demo_digits s' (10 * acc + (n - 48))
      else None
  end.

Definition demo_int_of_str (s : string) : option Z :=
  if bool_decide (s = "") then None else demo_digits s 0.

(** A server that knows one operator: [{"$ne": None}] selects every
    string. *)
Definition demo_query_operators (members : list (string * value))
  : string + (string → bool) :=
  match members with
  | [(k, VNone)] =>
      if bool_decide (k = "$ne") then inr (fun _ => true)
      else inl ("unknown operator: " +:+ k)
  | (k, _) :: _ => inl ("unknown operator: " +:+ k)
  | [] => inl "unknown operator"
  end.

Definition demo_timedelta_overflow (hours : Z) : string :=
  "days=" +:+ pretty (hours / 24) +:+ "; must have magnitude <= 999999999".

Definition demo_encode_error (v : value) : exn :=
  match v with
  | VInt _ => PyException "OverflowError"
                "MongoDB can only handle up to 8-byte ints"
  | _ => PyException "InvalidDocument" "cannot encode the query"
  end.

Definition demo_env : Environment :=
  {| hmac_sha256 := demo_hmac;
     serialize := demo_serialize;
     int_of_str := demo_int_of_str;
     SECRET_KEY := "secret";
     query_operators := demo_query_operators;
     encode_error := demo_encode_error;
     timedelta_overflow := demo_timedelta_overflow |}.

Definition demo_provider (rq : CompletionRequest) : ProviderReply :=
  Completion [ {| choice_content := Some "hello" |} ].

Definition failing_provider (rq : CompletionRequest) : ProviderReply :=
  ProviderError "RateLimitError" "quota exceeded".

Definition ana : User :=
  {| name := "Ana"; email := "ana@x.com"; password := "p1" |}.

Definition empty_world : World :=
  {| users_col := []; utcnow := 1700000000; elapsed := 0;
     clock_ok := eq_refl; openai := demo_provider; calls := [] |}.

Definition ana_world : World :=
  {| users_col := [ana]; utcnow := 1700000000; elapsed := 0;
     clock_ok := eq_refl; openai := demo_provider; calls := [] |}.

(** [w] with its clock set to [t]. *)
Definition at_time (w : World) (t : Z)
           (ok : plausible_clock t (elapsed w) = true) : World :=
  {| users_col := users_col w; utcnow := t; elapsed := elapsed w;
     clock_ok := ok; openai := openai w; calls := calls w |}.

Definition ana_token : Token :=
  @jwt_encode demo_env (issued_payload "ana@x.com" 1700000000) "secret".

Definition later_world : World := at_time ana_world 1700003600 eq_refl.

Definition expired_world : World := at_time ana_world 1700007200 eq_refl.

(** Ana's world when the second of the clock turns between the two
    readings of [create_jwt]. *)
Definition tick_world : World :=
  {| users_col := [ana]; utcnow := 1700000001; elapsed := 1;
     clock_ok := eq_refl; openai := demo_provider; calls := [] |}.

(** The token [create_jwt] issues in [tick_world]. *)
Definition tick_token : Token :=
  @jwt_encode demo_env (claims_for "ana@x.com" 1700007200 1700000001)
    "secret".

(** The last second before two hours have passed since the issue time of
    [tick_token]. *)
Definition last_second_world : World := at_time ana_world 1700007200 eq_refl.

(** A second before [ana_world]: the clock of the verifier is behind. *)
Definition earlier_world : World := at_time ana_world 1699999999 eq_refl.

Definition hi : ChatRequest := {| message := "hi" |}.


(** Ana's token with its signature replaced. *)
Definition forged_token : Token :=
  Jws (demo_serialize issued_header (issued_payload "ana@x.com" 1700000000))
      issued_header (issued_payload "ana@x.com" 1700000000) "forged".

(** Ana's claims with a not-before time a day ahead, signed with the
    secret. *)
Definition postdated_token : Token :=
  @jwt_encode demo_env
    (<["nbf" := VInt 1700086400]> (issued_payload "ana@x.com" 1700000000))
    "secret".

(** A token signed with the secret that has an expiry and no email. *)
Definition anonymous_token : Token :=
  @jwt_encode demo_env (<["exp" := VInt 1700007200]> ∅) "secret".

(** Ana's claims signed with another secret. *)
Definition foreign_token : Token :=
  @jwt_encode demo_env (issued_payload "ana@x.com" 1700000000) "other".

Definition failing_world : World :=
  {| users_col := [ana]; utcnow := 1700000000; elapsed := 0;
     clock_ok := eq_refl; openai := failing_provider; calls := [] |}.

Definition register_ana : RegisterRequest :=
  {| reg_name := "Ana"; reg_email := "ana@x.com"; reg_password := "p1" |}.

Definition register_bob : RegisterRequest :=
  {| reg_name := "Bob"; reg_email := "bob@x.com"; reg_password := "" |}.

Definition login_ana : LoginRequest :=
  {| login_email := "ana@x.com"; login_password := "p1" |}.

Definition midway_world : World := at_time ana_world 1700001800 eq_refl.

Definition long_after_world : World := at_time ana_world 1700009999 eq_refl.

Definition bob_world : World :=
  snd (@handle demo_env (PostRegister register_bob) ana_world).

Definition email_only : Payload := <["email" := VStr "ana@x.com"]> ∅.

(** A token signed with the secret, with an expiry, no email and a
    not-before time a day ahead. *)
Definition anonymous_postdated_token : Token :=
  @jwt_encode demo_env
    (<["nbf" := VInt 1700086400]> (<["exp" := VInt 1700172800]> ∅)) "secret".

(** A token signed with the secret, with an expiry, no email and an
    audience. *)
Definition anonymous_audience_token : Token :=
  @jwt_encode demo_env
    (<["aud" := VStr "chat"]> (<["exp" := VInt 1700007200]> ∅)) "secret".

(** A token signed with the secret whose email claim is the operator
    document [{"$ne": None}]. *)
Definition operator_token : Token :=
  @jwt_encode demo_env
    (<["email" := VObj [("$ne", VNone)]]>
       (<["exp" := VInt 1700007200]> ∅)) "secret".

Definition demo_os_environ : gmap string string :=
  <["SECRET_KEY" := "secret"]> (<["MONGO_URI" := "mongodb://db"]> ∅).

Definition demo_dotenv : gmap string string :=
  <["OPENAI_API_KEY" := "key"]> (<["SECRET_KEY" := "ignored"]> ∅).

(** * Facts *)

(** ** The monad *)

Lemma bind_ret {A B} (a : A) (k : A → M B) (w : World) :
  bind (ret a) k w = k a w.
Proof. reflexivity. Qed.

Lemma bind_raise {A B} (e : exn) (k : A → M B) (w : World) :
  bind (raise e) k w = (Raise e, w).
Proof. reflexivity. Qed.

Lemma bind_assoc {A B C} (m : M A) (k : A → M B) (h : B → M C) (w : World) :
  bind (bind m k) h w = bind m (fun a => bind (k a) h) w.
Proof. unfold bind. destruct (m w) as [[a|e] w']; reflexivity. Qed.

(** ** Looking a user up *)

Section LookupFacts.

Context {env : Environment}.

Lemma accepted_str (e : string) : accepted (VStr e).
Proof. by eexists. Qed.

Lemma accepted_none : accepted VNone.
Proof. by eexists. Qed.

Lemma email_matches_accepted (q : value) (u : User) :
  email_matches q u = true → accepted q.
Proof.
  unfold email_matches, accepted.
  destruct (compile_filter q) as [text|test]; [discriminate | by eexists].
Qed.

Lemma email_matches_str (e : string) (u : User) :
  email_matches (VStr e) u = true ↔ email u = e.
Proof. unfold email_matches. simpl. apply bool_decide_eq_true. Qed.

Lemma email_matches_str_false (e : string) (u : User) :
  email_matches (VStr e) u = false ↔ email u ≠ e.
Proof. unfold email_matches. simpl. apply bool_decide_eq_false. Qed.

Lemma email_matches_none (u : User) : email_matches VNone u = false.
Proof. reflexivity. Qed.

(** [find_one] on a filter the server accepts is a search of the
    collection that leaves the world as it is. *)
Lemma find_one_accepted (q : value) (w : World) :
  accepted q →
  find_one q w = (Return (List.find (email_matches q) (users_col w)), w).
Proof. intros [test Hq]. unfold find_one. by rewrite Hq. Qed.

Lemma find_one_str (e : string) (w : World) :
  find_one (VStr e) w
  = (Return (List.find (email_matches (VStr e)) (users_col w)), w).
Proof. reflexivity. Qed.

Lemma find_one_refused (q : value) (e : exn) (w : World) :
  compile_filter q = inl e → find_one q w = (Raise e, w).
Proof. intros Hq. unfold find_one. by rewrite Hq. Qed.

(** [find_one] never changes the world. *)
Lemma find_one_world (q : value) (w : World) : snd (find_one q w) = w.
Proof. unfold find_one. by destruct (compile_filter q). Qed.

Lemma find_none_Forall (users : list User) (q : value) :
  List.find (email_matches q) users = None
  ↔ Forall (fun u => email_matches q u = false) users.
Proof.
  induction users as [|u users IH]; simpl.
  - split; [constructor | reflexivity].
  - destruct (email_matches q u) eqn:Hu.
    + split; [discriminate |]. intros HF. inversion HF; congruence.
    + rewrite IH. split; [by constructor |]. by inversion 1.
Qed.

Lemma find_no_match (users : list User) (q : value) :
  no_match users q → List.find (email_matches q) users = None.
Proof. intros [_ HF]. by apply find_none_Forall. Qed.

Lemma no_match_find (users : list User) (q : value) :
  accepted q → List.find (email_matches q) users = None → no_match users q.
Proof. intros Hq Hf. split; [done | by apply find_none_Forall]. Qed.

Lemma find_first_match (l1 l2 : list User) (u : User) (q : value) :
  no_match l1 q → email_matches q u = true →
  List.find (email_matches q) (l1 ++ u :: l2) = Some u.
Proof.
  intros [_ HF]. induction HF as [|u' l1 Hu' _ IH]; intros Hu; simpl.
  - by rewrite Hu.
  - rewrite Hu'. by apply IH.
Qed.

Lemma find_split (users : list User) (q : value) (u : User) :
  List.find (email_matches q) users = Some u →
  ∃ l1 l2, users = l1 ++ u :: l2 ∧ no_match l1 q ∧ email_matches q u = true.
Proof.
  induction users as [|u' users IH]; simpl; [discriminate |].
  destruct (email_matches q u') eqn:Hu'.
  - intros [= ->]. exists [], users. split; [done |].
    split; [|done]. split; [by eapply email_matches_accepted | constructor].
  - intros Hf. destruct (IH Hf) as (l1 & l2 & -> & [Hq Hl1] & Hu).
    exists (u' :: l1), l2. split; [done |].
    split; [|done]. split; [done | by constructor].
Qed.

Lemma no_match_str (users : list User) (e : string) :
  no_match users (VStr e) ↔ Forall (fun u => email u ≠ e) users.
Proof.
  unfold no_match. split.
  - intros [_ HF]. eapply Forall_impl; [exact HF |].
    intros u. apply email_matches_str_false.
  - intros HF. split; [apply accepted_str |].
    eapply Forall_impl; [exact HF |].
    intros u. apply email_matches_str_false.
Qed.

Lemma find_str_none (users : list User) (e : string) :
  List.find (email_matches (VStr e)) users = None
  ↔ Forall (fun u => email u ≠ e) users.
Proof.
  rewrite <- no_match_str. split.
  - apply no_match_find, accepted_str.
  - apply find_no_match.
Qed.

Lemma find_str_exists (users : list User) (e : string) :
  Exists (fun u => email u = e) users →
  ∃ u, List.find (email_matches (VStr e)) users = Some u.
Proof.
  intros HE. destruct (List.find _ users) as [u|] eqn:Hf; [by exists u |].
  apply find_str_none in Hf. apply Exists_exists in HE as (u & Hin & Hu).
  rewrite Forall_forall in Hf. by destruct (Hf u Hin).
Qed.

Lemma find_stored_under (users : list User) (e : string) (u : User) :
  List.find (email_matches (VStr e)) users = Some u ↔ stored_under users e u.
Proof.
  split.
  - intros Hf. apply find_split in Hf as (l1 & l2 & -> & Hl1 & Hu).
    exists l1, l2. split; [done |].
    split; [by apply no_match_str | by apply email_matches_str].
  - intros (l1 & l2 & -> & Hl1 & Hu).
    apply find_first_match; [by apply no_match_str |].
    by apply email_matches_str.
Qed.

(** ** Register *)

(** C5. The register route: when the store already holds a user with that exact
    email the request fails with 400 "Email already registered" and the
    world is unchanged; otherwise the record (name, email, password) is
    appended as submitted, whatever the password, and the success message
    is returned, after which any registration of the same email fails with
    the same 400 and changes nothing. *)
Theorem register_user_behaviour (req : RegisterRequest) (w : World) :
  let doc := {| name := reg_name req;
                email := reg_email req;
                password := reg_password req |} in
  (Exists (fun u => email u = reg_email req) (users_col w) →
   register_user req w
   = (Raise (HTTPException 400 "Email already registered"), w))
  ∧ (Forall (fun u => email u ≠ reg_email req) (users_col w) →
     register_user req w
     = (Return {| resp_message := "User registered successfully" |},
        after_insert w doc)
     ∧ ∀ req' : RegisterRequest,
         reg_email req' = reg_email req →
         register_user req' (after_insert w doc)
         = (Raise (HTTPException 400 "Email already registered"),
            after_insert w doc)).
Proof.
  intros doc. split.
  - intros HE. apply find_str_exists in HE as [u Hu].
    unfold register_user, bind. by rewrite find_one_str, Hu.
  - intros HF. split.
    + unfold register_user, bind.
      by rewrite find_one_str, (proj2 (find_str_none _ _) HF).
    + intros req' Heq. unfold register_user, bind.
      rewrite find_one_str, Heq. simpl users_col.
      rewrite (find_first_match (users_col w) [] doc); [done | |].
      * by apply no_match_str.
      * by apply email_matches_str.
Qed.

End LookupFacts.

(** ** Issuing and verifying tokens *)

Section TokenFacts.

Context {env : Environment}.

Lemma issued_payload_email (e : string) (now : Z) :
  issued_payload e now !! "email" = Some (VStr e).
Proof. reflexivity. Qed.

Lemma issued_payload_iat (e : string) (now : Z) :
  issued_payload e now !! "iat" = Some (VInt now).
Proof. reflexivity. Qed.

Lemma issued_payload_exp (e : string) (now : Z) :
  issued_payload e now !! "exp" = Some (VInt (now + 7200)).
Proof. reflexivity. Qed.

Lemma issued_payload_other (e : string) (now : Z) (k : string) :
  k ≠ "email" → k ≠ "iat" → k ≠ "exp" → issued_payload e now !! k = None.
Proof.
  intros. unfold issued_payload.
  by rewrite !lookup_insert_ne, lookup_empty.
Qed.

(** The two readings of the clock of a world. *)
Lemma clock_bounds (w : World) :
  0 ≤ first_reading w ∧ first_reading w ≤ utcnow w ∧ utcnow w ≤ CLOCK_MAX.
Proof.
  pose proof (clock_ok w) as Hok. unfold plausible_clock in Hok.
  apply andb_true_iff in Hok as [Hlo Hhi].
  apply Z.leb_le in Hlo, Hhi. unfold first_reading. lia.
Qed.

(** Two hours can be added to any reading of the clock. *)
Lemma representable_two_hours (w : World) : representable 2 (first_reading w).
Proof.
  pose proof (clock_bounds w) as (Hlo & Hle & Hhi).
  unfold representable, DATETIME_MIN, DATETIME_MAX, CLOCK_MAX in *.
  change (Z.abs (2 / 24)) with 0. lia.
Qed.

(** With both readings at the same second, [create_jwt] builds the claim
    set of the specification. *)
Lemma claims_for_issued (e : string) (now : Z) :
  claims_for e (now + 7200) now = issued_payload e now.
Proof.
  unfold claims_for, issued_payload. f_equal; by apply insert_commute.
Qed.

(** [create_jwt] signs the email, the first reading of the clock plus the
    hours, and the second reading. *)
Lemma create_jwt_representable (e : string) (h : Z) (w : World) :
  representable h (first_reading w) →
  create_jwt e h w
  = (Return (jwt_encode (claims_for e (first_reading w + h * 3600) (utcnow w))
               SECRET_KEY), w).
Proof.
  intros [Hdays [Hlo Hhi]].
  unfold create_jwt, bind, datetime_utcnow_first, datetime_utcnow, lift,
    timedelta, datetime_add.
  rewrite (proj2 (Z.leb_le _ _) Hdays).
  rewrite (proj2 (Z.leb_le _ _) Hlo), (proj2 (Z.leb_le _ _) Hhi).
  reflexivity.
Qed.

(** Where Python cannot hold the expiry, [create_jwt] raises
    [OverflowError] and no token is issued. *)
Lemma create_jwt_overflow (e : string) (h : Z) (w : World) :
  ¬ representable h (first_reading w) →
  ∃ text, create_jwt e h w = (Raise (PyException "OverflowError" text), w).
Proof.
  intros Hn.
  unfold create_jwt, bind, datetime_utcnow_first, datetime_utcnow, lift,
    timedelta, datetime_add.
  destruct (Z.leb_spec (Z.abs (h / 24)) 999999999) as [Hdays|Hdays];
    [|by eexists].
  destruct (Z.leb_spec DATETIME_MIN (first_reading w + h * 3600)) as [Hlo|Hlo];
    [|by eexists].
  destruct (Z.leb_spec (first_reading w + h * 3600) DATETIME_MAX) as [Hhi|Hhi];
    [|by eexists].
  destruct Hn. by repeat split.
Qed.

Lemma create_jwt_eq (e : string) (w : World) :
  create_jwt e 2 w
  = (Return (jwt_encode (claims_for e (first_reading w + 7200) (utcnow w))
               SECRET_KEY), w).
Proof.
  by rewrite (create_jwt_representable e 2 w (representable_two_hours w)).
Qed.

(** [create_jwt] never changes the world. *)
Lemma create_jwt_world (e : string) (h : Z) (w : World) :
  snd (create_jwt e h w) = w.
Proof.
  unfold create_jwt, bind, datetime_utcnow_first, datetime_utcnow, lift.
  destruct (timedelta h _) as [delta|err]; [|done].
  by destruct (datetime_add _ delta).
Qed.

(** PyJWT's verdict on the claims of [create_jwt], at time [t]. *)
Lemma validate_claims_claims_for (e : string) (exp iat t : Z) :
  validate_claims (claims_for e exp iat) t
  = if decide (t < iat) then JwtRaise ImmatureSignatureError
    else if decide (t < exp) then JwtOk tt
    else JwtRaise ExpiredSignatureError.
Proof.
  unfold validate_claims, validate_iat, validate_nbf, validate_exp,
    validate_aud, validate_sub, validate_jti.
  change (claims_for e exp iat !! "iat") with (Some (VInt iat)).
  change (claims_for e exp iat !! "exp") with (Some (VInt exp)).
  change (claims_for e exp iat !! "nbf") with (@None value).
  change (claims_for e exp iat !! "aud") with (@None value).
  change (claims_for e exp iat !! "sub") with (@None value).
  change (claims_for e exp iat !! "jti") with (@None value).
  simpl. destruct (Z.ltb_spec t iat); case_decide; try lia; [done |].
  simpl. destruct (Z.leb_spec exp t); case_decide; try lia; done.
Qed.

Lemma validate_claims_issued (e : string) (now t : Z) :
  now ≤ t → t < now + 7200 →
  validate_claims (issued_payload e now) t = JwtOk tt.
Proof.
  intros Hlo Hhi. unfold validate_claims, validate_iat, validate_nbf,
    validate_exp, validate_aud, validate_sub, validate_jti.
  rewrite issued_payload_iat, issued_payload_exp.
  rewrite !issued_payload_other by done. simpl.
  destruct (Z.ltb_spec t now); [lia |]. simpl.
  destruct (Z.leb_spec (now + 7200) t); [lia | done].
Qed.

Lemma decode_jwt_eq (tok : Token) (w : World) :
  decode_jwt tok w
  = (match jwt_decode tok SECRET_KEY (utcnow w) with
     | JwtOk p => Return p
     | JwtRaise ExpiredSignatureError =>
         Raise (HTTPException 401 "Token expired")
     | JwtRaise _ => Raise (HTTPException 401 "Invalid token")
     | JwtTypeError type_name =>
         Raise (PyException "TypeError"
                  ("int() argument must be a string, a bytes-like object or a real number, not '"
                   +:+ type_name +:+ "'"))
     | JwtOverflowError =>
         Raise (PyException "OverflowError"
                  "cannot convert float infinity to integer")
     end, w).
Proof.
  unfold decode_jwt, bind, datetime_utcnow.
  destruct (jwt_decode _ _ _) as [p|[]|n|]; reflexivity.
Qed.

(** [decode_jwt] never changes the world. *)
Lemma decode_jwt_world (tok : Token) (w : World) :
  snd (decode_jwt tok w) = w.
Proof. by rewrite decode_jwt_eq. Qed.

Lemma jwt_decode_well_signed (tok : Token) (p : Payload) (now : Z) :
  well_signed tok p →
  jwt_decode tok SECRET_KEY now
  = jwt_bind (validate_claims p now) (fun _ => JwtOk p).
Proof.
  intros (si & h & -> & Halg). simpl.
  by rewrite !bool_decide_eq_true_2.
Qed.

Lemma decode_jwt_well_signed (tok : Token) (p : Payload) (w : World) :
  well_signed tok p →
  decode_jwt tok w = (verdict p (validate_claims p (utcnow w)), w).
Proof.
  intros Hs. rewrite decode_jwt_eq, (jwt_decode_well_signed _ _ _ Hs).
  by destruct (validate_claims p (utcnow w)) as [[]|[]|n|].
Qed.

Lemma jwt_encode_well_signed (p : Payload) :
  well_signed (jwt_encode p SECRET_KEY) p.
Proof. by eexists _, _. Qed.

(** A token that is not well signed is an invalid token, whatever its
    claims say. *)
Lemma decode_jwt_not_well_signed (tok : Token) (w : World) :
  (∀ p, ¬ well_signed tok p) →
  decode_jwt tok w = (Raise (HTTPException 401 "Invalid token"), w).
Proof.
  intros Hn. rewrite decode_jwt_eq. destruct tok as [raw|si h p s]; [done |].
  simpl. case_bool_decide as Halg; simpl; [|done].
  case_bool_decide as Hsig; simpl; [|done].
  destruct (Hn p). subst s. by exists si, h.
Qed.

(** C1, as the code has it. Round trip of the token service: the token
    [create_jwt] issues for an email carries exactly the claims email,
    exp = the clock as read for "exp" plus 2h, and iat = the clock as read
    after it for "iat", under an HS256 header, signed with the HMAC-SHA256
    of its signing input under the shared secret; verified with that
    secret at a time from iat on and before exp, it is accepted and gives
    back the claims, whose email is the original one.  When both readings
    of the clock fall in the same second the claims are those of the
    specification, with exp = iat + 2h. *)
Theorem create_jwt_decode_jwt_roundtrip (e : string) (w w' : World) :
  utcnow w ≤ utcnow w' →
  utcnow w' < first_reading w + 7200 →
  let p := claims_for e (first_reading w + 7200) (utcnow w) in
  let si := serialize issued_header p in
  let tok := Jws si issued_header p (hmac_sha256 SECRET_KEY si) in
  create_jwt e 2 w = (Return tok, w)
  ∧ (∀ k, p !! k = if decide (k = "email") then Some (VStr e)
                   else if decide (k = "iat") then Some (VInt (utcnow w))
                   else if decide (k = "exp")
                        then Some (VInt (first_reading w + 7200))
                   else None)
  ∧ decode_jwt tok w' = (Return p, w')
  ∧ dict_get p "email" = VStr e
  ∧ (elapsed w = 0%nat → p = issued_payload e (utcnow w)).
Proof.
  intros Hlo Hhi p si tok. split; [apply create_jwt_eq |].
  split.
  { intros k. repeat case_decide; subst; try done.
    unfold p, claims_for. by rewrite !lookup_insert_ne, lookup_empty. }
  split.
  { rewrite (decode_jwt_well_signed tok p) by apply jwt_encode_well_signed.
    subst p. rewrite validate_claims_claims_for.
    repeat case_decide; try lia. done. }
  split; [done |].
  intros H0. unfold p, first_reading. rewrite H0.
  replace (utcnow w - Z.of_nat 0 + 7200) with (utcnow w + 7200) by lia.
  apply claims_for_issued.
Qed.

(** From its expiry on the token is refused as expired. *)
Lemma create_jwt_expires (e : string) (w w' : World) :
  utcnow w ≤ utcnow w' →
  first_reading w + 7200 ≤ utcnow w' →
  decode_jwt (jwt_encode (claims_for e (first_reading w + 7200) (utcnow w))
                SECRET_KEY) w'
  = (Raise (HTTPException 401 "Token expired"), w').
Proof.
  intros Hlo Hlate.
  rewrite (decode_jwt_well_signed _ _ _ (jwt_encode_well_signed _)).
  rewrite validate_claims_claims_for.
  repeat case_decide; try lia. done.
Qed.

(** *** Which failure a token meets *)

Lemma claim_int_not_expired (v : value) (err : PyJWTError) :
  err ≠ ExpiredSignatureError →
  claim_int v err ≠ JwtRaise ExpiredSignatureError.
Proof. unfold claim_int. destruct (py_int v); congruence. Qed.

Lemma validate_iat_not_expired (p : Payload) (now : Z) :
  validate_iat p now ≠ JwtRaise ExpiredSignatureError.
Proof.
  unfold validate_iat. destruct (p !! "iat") as [v|]; [|done].
  unfold claim_int. destruct (py_int v) as [x| |n|]; simpl; try done.
  by destruct (now <? x).
Qed.

Lemma validate_nbf_not_expired (p : Payload) (now : Z) :
  validate_nbf p now ≠ JwtRaise ExpiredSignatureError.
Proof.
  unfold validate_nbf. destruct (p !! "nbf") as [v|]; [|done].
  unfold claim_int. destruct (py_int v) as [x| |n|]; simpl; try done.
  by destruct (now <? x).
Qed.

Lemma validate_exp_expired (p : Payload) (now : Z) :
  validate_exp p now = JwtRaise ExpiredSignatureError ↔ exp_passed p now.
Proof.
  unfold validate_exp, exp_passed. split.
  - destruct (p !! "exp") as [v|]; [|done].
    unfold claim_int. destruct (py_int v) as [x| |n|] eqn:Hv; simpl; try done.
    destruct (Z.leb_spec x now); [|done]. intros _. by exists v, x.
  - intros (v & x & -> & Hv & Hle). unfold claim_int. rewrite Hv. simpl.
    by destruct (Z.leb_spec x now); [|lia].
Qed.

Lemma validate_after_exp_not_expired (p : Payload) :
  jwt_bind (validate_aud p) (fun _ =>
    jwt_bind (validate_sub p) (fun _ => validate_jti p))
  ≠ JwtRaise ExpiredSignatureError.
Proof.
  unfold validate_aud, validate_sub, validate_jti.
  destruct (p !! "aud") as [a|]; [destruct (truthy a) |];
  destruct (p !! "sub") as [b|]; try destruct (is_str b);
  destruct (p !! "jti") as [c|]; try destruct (is_str c); by simpl.
Qed.

Lemma validate_claims_expired (p : Payload) (now : Z) :
  validate_claims p now = JwtRaise ExpiredSignatureError
  ↔ validate_iat p now = JwtOk tt
    ∧ validate_nbf p now = JwtOk tt
    ∧ exp_passed p now.
Proof.
  rewrite <- validate_exp_expired. unfold validate_claims.
  pose proof (validate_iat_not_expired p now) as Hiat.
  pose proof (validate_nbf_not_expired p now) as Hnbf.
  pose proof (validate_after_exp_not_expired p) as Hrest.
  split.
  - destruct (validate_iat p now) as [[]|e1|n1|]; simpl;
      [|congruence|done|done].
    destruct (validate_nbf p now) as [[]|e2|n2|]; simpl;
      [|congruence|done|done].
    destruct (validate_exp p now) as [[]|e3|n3|]; simpl;
      [|by intros ->|done|done].
    intros H. by destruct Hrest.
  - intros (-> & -> & ->). done.
Qed.

(** [decode_jwt] answers "Token expired" exactly for a well-signed token
    whose iat and nbf are accepted and whose exp has passed. *)
Lemma decode_jwt_expired (tok : Token) (w : World) :
  fst (decode_jwt tok w) = Raise (HTTPException 401 "Token expired")
  ↔ ∃ p, well_signed tok p
         ∧ validate_iat p (utcnow w) = JwtOk tt
         ∧ validate_nbf p (utcnow w) = JwtOk tt
         ∧ exp_passed p (utcnow w).
Proof.
  split.
  - destruct tok as [raw|si h p s].
    + by rewrite decode_jwt_eq.
    + rewrite decode_jwt_eq. simpl.
      case_bool_decide as Halg; simpl; [|done].
      case_bool_decide as Hsig; simpl; [|done].
      intros Hv. exists p. split; [subst s; by exists si, h |].
      apply validate_claims_expired.
      by destruct (validate_claims p (utcnow w)) as [[]|[]|n|].
  - intros (p & Hs & Hrest). rewrite (decode_jwt_well_signed _ _ _ Hs).
    simpl. by rewrite (proj2 (validate_claims_expired _ _) Hrest).
Qed.

(** C2, as the code has it. [decode_jwt] fails with 401 "Token expired"
    exactly when the token is well formed, names HS256, carries the MAC of
    its signing input under the secret, has its iat and nbf claims (if any)
    accepted, and its exp has passed; a token whose structure, algorithm or
    signature does not match fails with 401 "Invalid token" whether or not
    its exp has passed, and so does a token signed with a secret that gives
    another MAC; no claim is required, since the correctly signed token
    with no claims at all verifies; for a correctly signed token the result
    is the library's verdict on the claims it carries. *)
Theorem decode_jwt_failure_modes (w : World) :
  (∀ tok,
     fst (decode_jwt tok w) = Raise (HTTPException 401 "Token expired")
     ↔ ∃ p, well_signed tok p
            ∧ validate_iat p (utcnow w) = JwtOk tt
            ∧ validate_nbf p (utcnow w) = JwtOk tt
            ∧ exp_passed p (utcnow w))
  ∧ (∀ raw,
       decode_jwt (Garbage raw) w
       = (Raise (HTTPException 401 "Invalid token"), w))
  ∧ (∀ si h p s,
       alg h ≠ "HS256" ∨ s ≠ hmac_sha256 SECRET_KEY si →
       decode_jwt (Jws si h p s) w
       = (Raise (HTTPException 401 "Invalid token"), w))
  ∧ (∀ key p,
       hmac_sha256 key (serialize issued_header p)
       ≠ hmac_sha256 SECRET_KEY (serialize issued_header p) →
       decode_jwt (jwt_encode p key) w
       = (Raise (HTTPException 401 "Invalid token"), w))
  ∧ decode_jwt (jwt_encode ∅ SECRET_KEY) w = (Return ∅, w)
  ∧ (∀ tok p,
       well_signed tok p →
       decode_jwt tok w = (verdict p (validate_claims p (utcnow w)), w)).
Proof.
  split; [intros tok; apply decode_jwt_expired |].
  split; [intros raw; by rewrite decode_jwt_eq |].
  assert (∀ si h p s,
            alg h ≠ "HS256" ∨ s ≠ hmac_sha256 SECRET_KEY si →
            decode_jwt (Jws si h p s) w
            = (Raise (HTTPException 401 "Invalid token"), w)) as Hbad.
  { intros si h p s Hor. apply decode_jwt_not_well_signed.
    intros p' (si' & h' & [= -> -> -> ->] & Halg). by destruct Hor. }
  split; [exact Hbad |].
  split; [intros key p Hne; apply Hbad; by right |].
  split; [|intros tok p; apply decode_jwt_well_signed].
  by rewrite (decode_jwt_well_signed _ _ _ (jwt_encode_well_signed _)).
Qed.

End TokenFacts.

(** ** The authentication gate *)

Section GateFacts.

Context {env : Environment}.

Lemma empty_credentials_spec (tok : Token) :
  empty_credentials tok = true ↔ tok = Garbage "".
Proof.
  destruct tok as [[|c raw]|si h p s]; simpl; split; congruence.
Qed.


Lemma security_bearer (authorization : Authorization) (tok : Token)
      (w : World) :
  bearer authorization tok → security authorization w = (Return tok, w).
Proof.
  intros (scheme & -> & Hl & Hne). unfold security.
  rewrite (bool_decide_eq_false_2 (scheme = "")) by by intros ->.
  destruct (empty_credentials tok) eqn:He.
  { by apply empty_credentials_spec in He. }
  by rewrite (bool_decide_eq_true_2 (lower scheme = "bearer")).
Qed.


Lemma security_world (authorization : Authorization) (w : World) :
  snd (security authorization w) = w.
Proof.
  unfold security. destruct authorization as [[scheme tok]|]; [|done].
  destruct (empty_credentials tok); repeat case_bool_decide; done.
Qed.

Lemma get_current_user_eq (tok : Token) (w : World) :
  get_current_user tok w
  = (match fst (decode_jwt tok w) with
     | Raise e => Raise e
     | Return p =>
         match compile_filter (dict_get p "email") with
         | inl e => Raise e
         | inr _ =>
             match List.find (email_matches (dict_get p "email"))
                             (users_col w) with
             | None => Raise (HTTPException 401 "User not found")
             | Some u => Return u
             end
         end
     end, w).
Proof.
  unfold get_current_user, bind. rewrite decode_jwt_eq. simpl.
  destruct (jwt_decode _ _ _) as [p|[]|n|]; try reflexivity.
  unfold find_one. destruct (compile_filter _); [done |].
  by destruct (List.find _ _).
Qed.

(** After a token has verified, and when the server accepts its email
    claim as a filter, the gate is the search of the collection. *)
Lemma get_current_user_accepted (tok : Token) (w : World) (p : Payload) :
  fst (decode_jwt tok w) = Return p →
  accepted (dict_get p "email") →
  get_current_user tok w
  = (match List.find (email_matches (dict_get p "email")) (users_col w) with
     | None => Raise (HTTPException 401 "User not found")
     | Some u => Return u
     end, w).
Proof.
  intros Hd [test Hq]. by rewrite get_current_user_eq, Hd, Hq.
Qed.

Lemma get_current_user_world (tok : Token) (w : World) :
  snd (get_current_user tok w) = w.
Proof. by rewrite get_current_user_eq. Qed.

(** The gate only reads: it leaves the world as it found it. *)
Lemma depends_get_current_user_world (authorization : Authorization)
      (w : World) :
  snd (depends_get_current_user authorization w) = w.
Proof.
  unfold depends_get_current_user, bind.
  pose proof (security_world authorization w) as Hs.
  destruct (security authorization w) as [[tok|e] w1]; simpl in Hs; subst w1.
  - apply get_current_user_world.
  - done.
Qed.

(** A request the gate rejects never reaches the handler: the rejection
    is the response and no call to the provider is made. *)
Lemma post_chat_rejected (authorization : Authorization) (req : ChatRequest)
      (w : World) (e : exn) :
  fst (depends_get_current_user authorization w) = Raise e →
  post_chat authorization req w = (Raise e, w).
Proof.
  intros He. unfold post_chat, bind.
  pose proof (depends_get_current_user_world authorization w) as Hw.
  destruct (depends_get_current_user authorization w) as [[u|e'] w1].
  - discriminate.
  - simpl in *. congruence.
Qed.

Lemma post_chat_accepted (authorization : Authorization) (req : ChatRequest)
      (w : World) (u : User) :
  fst (depends_get_current_user authorization w) = Return u →
  post_chat authorization req w = chat req u w.
Proof.
  intros Hu. unfold post_chat, bind.
  pose proof (depends_get_current_user_world authorization w) as Hw.
  destruct (depends_get_current_user authorization w) as [[u'|e] w1].
  - simpl in *. congruence.
  - discriminate.
Qed.

Lemma depends_bearer (authorization : Authorization) (tok : Token)
      (w : World) :
  bearer authorization tok →
  depends_get_current_user authorization w = get_current_user tok w.
Proof.
  intros Hb. unfold depends_get_current_user, bind.
  by rewrite (security_bearer _ _ _ Hb).
Qed.

(** *** Errors of [int] that PyJWT lets through *)







(** The email claim plays no part in the verification of a token. *)
Lemma validate_claims_ignores_email (p : Payload) (now : Z) :
  validate_claims (delete "email" p) now = validate_claims p now.
Proof.
  unfold validate_claims, validate_iat, validate_nbf, validate_exp,
    validate_aud, validate_sub, validate_jti.
  by rewrite !lookup_delete_ne.
Qed.

(** C10, as the code has it. A correctly signed token which has no email
    claim and whose claims the library accepts at the current time (it is
    unexpired, and it carries no iat or nbf in the future, no audience and
    no other registered claim the library refuses) passes [decode_jwt];
    the gate then looks up [None], which matches no stored user, and the
    request is refused with 401 "User not found", not with "Invalid
    token"; the world is unchanged and the provider not called. *)
Theorem post_chat_token_without_email (authorization : Authorization)
        (tok : Token) (req : ChatRequest) (w : World) (p : Payload) :
  bearer authorization tok →
  well_signed tok p →
  validate_claims p (utcnow w) = JwtOk tt →
  p !! "email" = None →
  decode_jwt tok w = (Return p, w)
  ∧ dict_get p "email" = VNone
  ∧ List.find (email_matches VNone) (users_col w) = None
  ∧ post_chat authorization req w
    = (Raise (HTTPException 401 "User not found"), w)
  ∧ calls (snd (post_chat authorization req w)) = calls w.
Proof.
  intros Hb Hs Hv Hnone.
  assert (decode_jwt tok w = (Return p, w)) as Hd.
  { by rewrite (decode_jwt_well_signed _ _ _ Hs), Hv. }
  assert (dict_get p "email" = VNone) as Hq.
  { unfold dict_get. by rewrite Hnone. }
  assert (List.find (email_matches VNone) (users_col w) = None) as Hf.
  { apply find_none_Forall. by apply Forall_forall. }
  assert (post_chat authorization req w
          = (Raise (HTTPException 401 "User not found"), w)) as Hp.
  { apply post_chat_rejected.
    rewrite (depends_bearer _ _ _ Hb), get_current_user_eq, Hd. simpl.
    by rewrite Hq, Hf. }
  by rewrite Hp.
Qed.

End GateFacts.

(** ** Chat *)

Lemma chat_eq (req : ChatRequest) (u : User) (w : World) :
  chat req u w
  = (match openai w (completion_request u req) with
     | ProviderError _ text =>
         Raise (HTTPException 500 ("OpenAI error: " +:+ text))
     | Completion [] =>
         Raise (HTTPException 500 "OpenAI error: list index out of range")
     | Completion (c :: _) =>
         Return {| user := name u; reply := choice_content c |}
     end, after_call w (completion_request u req)).
Proof.
  unfold chat, try_except, bind, completions_create.
  change {| model := "gpt-4o-mini";
            messages := [ {| role := "system"; content := system_prompt u |};
                          {| role := "user"; content := message req |} ] |}
    with (completion_request u req).
  destruct (openai w (completion_request u req)) as [cls text|[|c rest]];
    reflexivity.
Qed.

(** Whatever the provider does, [chat] calls it exactly once and leaves
    the store, the clock and the provider as they are. *)
Lemma chat_world (req : ChatRequest) (u : User) (w : World) :
  snd (chat req u w) = after_call w (completion_request u req).
Proof. by rewrite chat_eq. Qed.

Section ChatFacts.

Context {env : Environment}.

(** C7. Chat, success path: for a request the gate has authenticated as
    user [u], the handler sends the provider one request, under the fixed
    model "gpt-4o-mini", made of a system prompt that names the user and of
    the message of this request and nothing else; when the provider
    answers with choices, the response is the user's name and the text of
    the first choice as received; the log of calls has grown by exactly
    that one request, and neither the request nor the response depends on
    the calls made before. *)
Theorem chat_success (req : ChatRequest) (u : User) (w : World)
        (c : Choice) (rest : list Choice) :
  openai w (completion_request u req) = Completion (c :: rest) →
  chat req u w
  = (Return {| user := name u; reply := choice_content c |},
     after_call w (completion_request u req))
  ∧ (∀ authorization,
       fst (depends_get_current_user authorization w) = Return u →
       post_chat authorization req w
       = (Return {| user := name u; reply := choice_content c |},
          after_call w (completion_request u req)))
  ∧ model (completion_request u req) = "gpt-4o-mini"
  ∧ messages (completion_request u req)
    = [ {| role := "system";
           content := "You are a helpful assistant for user "
                      +:+ name u +:+ "." |};
        {| role := "user"; content := message req |} ]
  ∧ calls (snd (chat req u w)) = calls w ++ [completion_request u req]
  ∧ (∀ w2, openai w2 (completion_request u req)
           = openai w (completion_request u req) →
           fst (chat req u w2) = fst (chat req u w)).
Proof.
  intros Hc.
  assert (chat req u w
          = (Return {| user := name u; reply := choice_content c |},
             after_call w (completion_request u req))) as Hchat.
  { by rewrite chat_eq, Hc. }
  split; [exact Hchat |]. split.
  { intros authorization Hu. by rewrite (post_chat_accepted _ _ _ _ Hu). }
  rewrite Hchat. repeat split.
  intros w2 H2. by rewrite chat_eq, H2, Hc.
Qed.

(** C8. Chat, failure path: for a request the gate has authenticated, an
    error raised by the provider during the completion call is caught and
    answered with status 500 and the detail "OpenAI error: " followed by
    the text of the error; a completion without choices is answered the
    same way, with the text of the [IndexError]; every failure of the
    handler is such a 500; in every case the provider has been called
    exactly once, so nothing is retried. *)
Theorem chat_failure (req : ChatRequest) (u : User) (w : World) :
  (∀ cls text,
     openai w (completion_request u req) = ProviderError cls text →
     chat req u w
     = (Raise (HTTPException 500 ("OpenAI error: " +:+ text)),
        after_call w (completion_request u req))
     ∧ ∀ authorization,
         fst (depends_get_current_user authorization w) = Return u →
         post_chat authorization req w
         = (Raise (HTTPException 500 ("OpenAI error: " +:+ text)),
            after_call w (completion_request u req)))
  ∧ (openai w (completion_request u req) = Completion [] →
     chat req u w
     = (Raise (HTTPException 500 "OpenAI error: list index out of range"),
        after_call w (completion_request u req)))
  ∧ calls (snd (chat req u w)) = calls w ++ [completion_request u req]
  ∧ (∀ e, fst (chat req u w) = Raise e →
          ∃ detail, e = HTTPException 500 ("OpenAI error: " +:+ detail)).
Proof.
  split; [|split; [|split]].
  - intros cls text He.
    assert (chat req u w
            = (Raise (HTTPException 500 ("OpenAI error: " +:+ text)),
               after_call w (completion_request u req))) as Hchat.
    { by rewrite chat_eq, He. }
    split; [exact Hchat |].
    intros authorization Hu. by rewrite (post_chat_accepted _ _ _ _ Hu).
  - intros He. by rewrite chat_eq, He.
  - by rewrite chat_eq.
  - intros e. rewrite chat_eq. simpl.
    destruct (openai w (completion_request u req)) as [cls text|[|c rest]];
      intros [= <-]; eauto.
Qed.

End ChatFacts.

(** ** Login *)

Section LoginFacts.

Context {env : Environment}.

Lemma login_user_eq (req : LoginRequest) (w : World) :
  login_user req w
  = (match List.find (email_matches (VStr (login_email req))) (users_col w)
     with
     | None => Raise (HTTPException 401 "Invalid credentials")
     | Some u =>
         if bool_decide (password u = login_password req)
         then Return {| login_message := "Login successful";
                        token := jwt_encode
                                   (claims_for (login_email req)
                                               (first_reading w + 7200)
                                               (utcnow w))
                                   SECRET_KEY |}
         else Raise (HTTPException 401 "Invalid credentials")
     end, w).
Proof.
  unfold login_user, bind. rewrite find_one_str.
  destruct (List.find _ _) as [u|]; [|done].
  case_bool_decide; cbn [negb]; [|done]. by rewrite create_jwt_eq.
Qed.

Lemma login_user_world (req : LoginRequest) (w : World) :
  snd (login_user req w) = w.
Proof. by rewrite login_user_eq. Qed.

(** C6. Login fails with 401 "Invalid credentials" exactly when no stored
    user has the submitted email or the password stored under it differs
    from the submitted one, with the same error in both cases; otherwise it
    returns the success message with the token that [create_jwt] issues
    for that email at that moment: the claims email, exp = the clock as
    read for it plus 2h and iat = the clock as read after it, signed with
    the secret.  It never changes the world. *)
Theorem login_user_behaviour (req : LoginRequest) (w : World) :
  (fst (login_user req w) = Raise (HTTPException 401 "Invalid credentials")
   ↔ unknown_email (users_col w) (login_email req)
     ∨ ∃ u, stored_under (users_col w) (login_email req) u
            ∧ password u ≠ login_password req)
  ∧ (∀ u,
       stored_under (users_col w) (login_email req) u →
       password u = login_password req →
       ∃ tok,
         create_jwt (login_email req) 2 w = (Return tok, w)
         ∧ tok = jwt_encode (claims_for (login_email req)
                                        (first_reading w + 7200) (utcnow w))
                            SECRET_KEY
         ∧ login_user req w
           = (Return {| login_message := "Login successful"; token := tok |},
              w))
  ∧ snd (login_user req w) = w.
Proof.
  split; [|split; [|apply login_user_world]].
  - rewrite login_user_eq. simpl.
    destruct (List.find _ _) as [u|] eqn:Hf.
    + apply find_stored_under in Hf. case_bool_decide as Hpw; split.
      * discriminate.
      * intros [Hn | (u' & Hu' & Hne)].
        -- apply find_str_none in Hn. apply find_stored_under in Hf.
           congruence.
        -- apply find_stored_under in Hf, Hu'. congruence.
      * intros _. right. by exists u.
      * done.
    + split; [|done]. intros _. left. by apply find_str_none.
  - intros u Hu Hpw. eexists. split; [apply create_jwt_eq |].
    split; [done |]. rewrite login_user_eq.
    apply find_stored_under in Hu. rewrite Hu.
    by rewrite bool_decide_eq_true_2.
Qed.

End LoginFacts.

(** ** The store across requests *)

Section FrameFacts.

Context {env : Environment}.

Lemma register_user_world (req : RegisterRequest) (w : World) :
  snd (register_user req w) = w
  ∨ (unknown_email (users_col w) (reg_email req)
     ∧ snd (register_user req w)
       = after_insert w {| name := reg_name req;
                           email := reg_email req;
                           password := reg_password req |}).
Proof.
  unfold register_user, bind. rewrite find_one_str.
  destruct (List.find _ _) as [u|] eqn:Hf; [by left |].
  right. split; [by apply find_str_none | done].
Qed.

Lemma post_chat_users (authorization : Authorization) (req : ChatRequest)
      (w : World) :
  users_col (snd (post_chat authorization req w)) = users_col w.
Proof.
  destruct (fst (depends_get_current_user authorization w)) as [u|e] eqn:Hg.
  - by rewrite (post_chat_accepted _ _ _ _ Hg), chat_world.
  - by rewrite (post_chat_rejected _ _ _ _ Hg).
Qed.

Lemma bind_ret_world {A B} (m : M A) (f : A → B) (w : World) :
  snd (bind m (fun a => ret (f a)) w) = snd (m w).
Proof. unfold bind, ret. by destruct (m w) as [[a|e] w']. Qed.

Lemma handle_world (rq : Request) (w : World) :
  snd (handle rq w)
  = match rq with
    | PostRegister req => snd (register_user req w)
    | PostLogin req => snd (login_user req w)
    | PostChat authorization req => snd (post_chat authorization req w)
    end.
Proof. destruct rq; apply bind_ret_world. Qed.

(** Serving a request leaves the store as it is, unless the request is a
    registration, which can only append its own record. *)
Lemma handle_users (rq : Request) (w : World) :
  users_col (snd (handle rq w)) = users_col w
  ∨ ∃ req, rq = PostRegister req
           ∧ unknown_email (users_col w) (reg_email req)
           ∧ users_col (snd (handle rq w))
             = users_col w ++ [ {| name := reg_name req;
                                   email := reg_email req;
                                   password := reg_password req |} ].
Proof.
  rewrite handle_world. destruct rq as [req|req|authorization req].
  - destruct (register_user_world req w) as [-> | [Hn ->]]; [by left |].
    right. by exists req.
  - left. by rewrite login_user_world.
  - left. apply post_chat_users.
Qed.

Lemma step_users (w w' : World) :
  step w w' → users_col w `prefix_of` users_col w'.
Proof.
  intros [rq w0 | w0 now' elapsed' ok openai' _]; [|done].
  destruct (handle_users rq w0) as [-> | (req & _ & _ & ->)]; [done |].
  by apply prefix_app_r.
Qed.

(** C9. Frame of the store: login, the authentication gate, the chat
    handler and the whole chat route leave the users collection exactly as
    it was; a request that changes the collection is a registration, and
    what it does is append its own record; hence along any run of the
    system the collection only grows at its end: every record once stored
    stays stored, at its place and unchanged. *)
Theorem users_col_frame :
  (∀ (req : LoginRequest) (w : World),
     users_col (snd (login_user req w)) = users_col w)
  ∧ (∀ (authorization : Authorization) (w : World),
       users_col (snd (depends_get_current_user authorization w))
       = users_col w)
  ∧ (∀ (req : ChatRequest) (u : User) (w : World),
       users_col (snd (chat req u w)) = users_col w)
  ∧ (∀ (authorization : Authorization) (req : ChatRequest) (w : World),
       users_col (snd (post_chat authorization req w)) = users_col w)
  ∧ (∀ (rq : Request) (w : World),
       users_col (snd (handle rq w)) ≠ users_col w →
       ∃ req, rq = PostRegister req
              ∧ users_col (snd (handle rq w))
                = users_col w ++ [ {| name := reg_name req;
                                      email := reg_email req;
                                      password := reg_password req |} ])
  ∧ (∀ w w' : World,
       reachable w w' →
       users_col w `prefix_of` users_col w'
       ∧ ∀ (i : nat) (u : User),
           users_col w !! i = Some u → users_col w' !! i = Some u).
Proof.
  split; [intros; by rewrite login_user_world |].
  split; [intros; by rewrite depends_get_current_user_world |].
  split; [intros; by rewrite chat_world |].
  split; [intros; apply post_chat_users |].
  split.
  - intros rq w Hne.
    destruct (handle_users rq w) as [? | (req & -> & _ & Hu)]; [done |].
    by exists req.
  - intros w w' Hr.
    assert (users_col w `prefix_of` users_col w') as Hp.
    { induction Hr as [w | w w1 w2 Hs _ IH]; [done |].
      etrans; [by apply step_users | done]. }
    split; [done |]. intros i u Hi. by eapply prefix_lookup_Some.
Qed.

(** Serving a request does not move the clock, and the environment only
    moves it forward: along a run the clock never goes back. *)
Lemma handle_utcnow (rq : Request) (w : World) :
  utcnow (snd (handle rq w)) = utcnow w.
Proof.
  rewrite handle_world. destruct rq as [req|req|authorization req].
  - by destruct (register_user_world req w) as [-> | [_ ->]].
  - by rewrite login_user_world.
  - destruct (fst (depends_get_current_user authorization w)) as [u|e] eqn:Hg.
    + by rewrite (post_chat_accepted _ _ _ _ Hg), chat_world.
    + by rewrite (post_chat_rejected _ _ _ _ Hg).
Qed.

Lemma reachable_utcnow (w w' : World) :
  reachable w w' → utcnow w ≤ utcnow w'.
Proof.
  induction 1 as [w | w w1 w2 Hs _ IH]; [done |].
  etrans; [|exact IH]. destruct Hs as [rq w | w now' elapsed' ok openai' Hle].
  - by rewrite handle_utcnow.
  - done.
Qed.

(** A token issued in a run verifies at every later point of the run that
    comes before its expiry. *)
Lemma create_jwt_valid_along_runs (e : string) (w w' : World) :
  reachable w w' →
  utcnow w' < first_reading w + 7200 →
  decode_jwt (jwt_encode (claims_for e (first_reading w + 7200) (utcnow w))
                SECRET_KEY) w'
  = (Return (claims_for e (first_reading w + 7200) (utcnow w)), w').
Proof.
  intros Hr Hhi. apply reachable_utcnow in Hr.
  rewrite (decode_jwt_well_signed _ _ _ (jwt_encode_well_signed _)).
  rewrite validate_claims_claims_for. repeat case_decide; try lia. done.
Qed.

(** X9. The invariant of the data model: when requests are served one
    after the other, a store in which no two users share an email stays
    such a store, whatever requests are served and however the clock and
    the provider move in between. *)
Lemma unique_emails_invariant (w w' : World) :
  reachable w w' →
  NoDup (email <$> users_col w) → NoDup (email <$> users_col w').
Proof.
  induction 1 as [w | w w1 w2 Hs _ IH]; [done |].
  intros Hnd. apply IH. clear IH. destruct Hs as [rq w | w now' elapsed' ok openai' _]; [|done].
  destruct (handle_users rq w) as [-> | (req & _ & Hn & ->)]; [done |].
  rewrite fmap_app. simpl. apply NoDup_app. split; [done |].
  split; [|apply NoDup_singleton].
  intros e He. rewrite list_elem_of_singleton. intros ->.
  apply list_elem_of_fmap in He as (u & Hu & Hin).
  unfold unknown_email in Hn. rewrite Forall_forall in Hn.
  by destruct (Hn u Hin).
Qed.

End FrameFacts.

(** * The model at work *)

(** The end-to-end scenario of the specification: Ana registers, logs in
    and chats with a provider that answers "hello". *)
Example end_to_end :
  let w1 := snd (@register_user demo_env register_ana empty_world) in
  fst (@register_user demo_env register_ana empty_world)
  = Return {| resp_message := "User registered successfully" |}
  ∧ fst (@login_user demo_env login_ana w1)
    = Return {| login_message := "Login successful"; token := ana_token |}
  ∧ fst (@post_chat demo_env (Some ("Bearer", ana_token)) hi w1)
    = Return {| user := "Ana"; reply := Some "hello" |}.
Proof. vm_compute. repeat split. Qed.


(** C1, counterexample to "the token embeds iat = now and exp = now + 2h
    and verifies at any time before iat + 2 hours": when the second of the
    clock turns between the two readings of [create_jwt], the token
    carries exp = iat + 7199, and in the last second before iat + 2h it is
    refused as expired; and a verifier whose clock is a second behind the
    issue time, a time before iat + 2h, refuses Ana's token as invalid. *)
Lemma create_jwt_decode_jwt_roundtrip_counterexample :
  (@create_jwt demo_env "ana@x.com" 2 tick_world
   = (Return tick_token, tick_world)
   ∧ claims_for "ana@x.com" 1700007200 1700000001 !! "iat"
     = Some (VInt 1700000001)
   ∧ claims_for "ana@x.com" 1700007200 1700000001 !! "exp"
     = Some (VInt (1700000001 + 7199))
   ∧ utcnow tick_world ≤ utcnow last_second_world
   ∧ utcnow last_second_world < 1700000001 + 7200
   ∧ @decode_jwt demo_env tick_token last_second_world
     = (Raise (HTTPException 401 "Token expired"), last_second_world))
  ∧ (@create_jwt demo_env "ana@x.com" 2 ana_world
     = (Return ana_token, ana_world)
     ∧ issued_payload "ana@x.com" 1700000000 !! "iat"
       = Some (VInt 1700000000)
     ∧ utcnow earlier_world < 1700000000 + 7200
     ∧ @decode_jwt demo_env ana_token earlier_world
       = (Raise (HTTPException 401 "Invalid token"), earlier_world)).
Proof.
  split.
  - split; [reflexivity |]. split; [reflexivity |]. split; [reflexivity |].
    split; [vm_compute; discriminate |]. split; reflexivity.
  - split; [reflexivity |]. split; [reflexivity |]. split; reflexivity.
Qed.

Lemma create_jwt_decode_jwt_roundtrip_witness :
  utcnow tick_world ≤ utcnow later_world
  ∧ utcnow later_world < first_reading tick_world + 7200
  ∧ @create_jwt demo_env "ana@x.com" 2 tick_world
    = (Return tick_token, tick_world)
  ∧ @decode_jwt demo_env tick_token later_world
    = (Return (claims_for "ana@x.com" 1700007200 1700000001), later_world).
Proof.
  assert (utcnow tick_world ≤ utcnow later_world) as Hlo
    by (vm_compute; discriminate).
  assert (utcnow later_world < first_reading tick_world + 7200) as Hhi
    by reflexivity.
  destruct (create_jwt_decode_jwt_roundtrip (env := demo_env)
              "ana@x.com" tick_world later_world Hlo Hhi)
    as (Hc & _ & Hd & _).
  split; [exact Hlo |]. split; [exact Hhi |].
  split; [exact Hc | exact Hd].
Defined.

(** C2, counterexample to "expired exactly when exp has passed, and no
    other claim checked": Ana's token with a forged
    signature, presented after its expiry, has an exp that has passed, yet
    it fails with "Invalid token" and not with "Token expired"; and a token
    that is well formed, correctly signed and unexpired fails with "Invalid
    token" because of a claim other than exp, its not-before time. *)
Lemma decode_jwt_expired_iff_exp_passed_counterexample :
  (@exp_passed demo_env (issued_payload "ana@x.com" 1700000000)
               (utcnow expired_world)
   ∧ @decode_jwt demo_env forged_token expired_world
     = (Raise (HTTPException 401 "Invalid token"), expired_world)
   ∧ ¬ (fst (@decode_jwt demo_env forged_token expired_world)
        = Raise (HTTPException 401 "Token expired")
        ↔ @exp_passed demo_env (issued_payload "ana@x.com" 1700000000)
                      (utcnow expired_world)))
  ∧ (@well_signed demo_env postdated_token
       (<["nbf" := VInt 1700086400]> (issued_payload "ana@x.com" 1700000000))
     ∧ ¬ @exp_passed demo_env
           (<["nbf" := VInt 1700086400]>
              (issued_payload "ana@x.com" 1700000000))
           (utcnow ana_world)
     ∧ @decode_jwt demo_env postdated_token ana_world
       = (Raise (HTTPException 401 "Invalid token"), ana_world)).
Proof.
  assert (@exp_passed demo_env (issued_payload "ana@x.com" 1700000000)
                      (utcnow expired_world)) as Hpassed.
  { exists (VInt 1700007200), 1700007200. repeat split.
    vm_compute. discriminate. }
  split; [split; [exact Hpassed | split; [reflexivity |]] |].
  - intros [_ Himp]. specialize (Himp Hpassed). discriminate Himp.
  - split; [by eexists _, _ |]. split; [|reflexivity].
    intros (v & x & Hv & Hx & Hle). vm_compute in Hv.
    injection Hv as <-. vm_compute in Hx. injection Hx as <-.
    vm_compute in Hle. by apply Hle.
Qed.

Lemma decode_jwt_failure_modes_witness :
  demo_hmac "other" (demo_serialize issued_header
                       (issued_payload "ana@x.com" 1700000000))
  ≠ demo_hmac "secret" (demo_serialize issued_header
                          (issued_payload "ana@x.com" 1700000000))
  ∧ @decode_jwt demo_env foreign_token ana_world
    = (Raise (HTTPException 401 "Invalid token"), ana_world).
Proof.
  assert (demo_hmac "other"
            (demo_serialize issued_header
               (issued_payload "ana@x.com" 1700000000))
          ≠ demo_hmac "secret"
              (demo_serialize issued_header
                 (issued_payload "ana@x.com" 1700000000))) as Hne.
  { intros H. vm_compute in H. discriminate H. }
  split; [exact Hne |].
  destruct (decode_jwt_failure_modes (env := demo_env) ana_world)
    as (_ & _ & _ & Hforeign & _).
  exact (Hforeign "other" (issued_payload "ana@x.com" 1700000000) Hne).
Defined.



Lemma register_user_behaviour_witness :
  unknown_email (users_col ana_world) (reg_email register_bob)
  ∧ @register_user demo_env register_bob ana_world
    = (Return {| resp_message := "User registered successfully" |},
       after_insert ana_world
         {| name := "Bob"; email := "bob@x.com"; password := "" |})
  ∧ Exists (fun u => email u = reg_email register_ana) (users_col ana_world)
  ∧ @register_user demo_env register_ana ana_world
    = (Raise (HTTPException 400 "Email already registered"), ana_world).
Proof.
  assert (unknown_email (users_col ana_world) (reg_email register_bob)) as Hn.
  { repeat constructor. discriminate. }
  assert (Exists (fun u => email u = reg_email register_ana)
                 (users_col ana_world)) as He.
  { by constructor. }
  split; [exact Hn |].
  split; [exact (proj1 (proj2 (register_user_behaviour (env := demo_env)
                                 register_bob ana_world) Hn)) |].
  split; [exact He |].
  exact (proj1 (register_user_behaviour (env := demo_env) register_ana
                  ana_world) He).
Defined.

Lemma login_user_behaviour_witness :
  stored_under (users_col ana_world) (login_email login_ana) ana
  ∧ password ana = login_password login_ana
  ∧ @login_user demo_env login_ana ana_world
    = (Return {| login_message := "Login successful"; token := ana_token |},
       ana_world).
Proof.
  assert (stored_under (users_col ana_world) (login_email login_ana) ana)
    as Hs.
  { exists [], []. repeat split. constructor. }
  split; [exact Hs |]. split; [reflexivity |].
  destruct (login_user_behaviour (env := demo_env) login_ana ana_world)
    as (_ & Hok & _).
  destruct (Hok ana Hs eq_refl) as (tok & _ & -> & Hlogin).
  exact Hlogin.
Defined.

Lemma chat_success_witness :
  openai ana_world (completion_request ana hi)
  = Completion [ {| choice_content := Some "hello" |} ]
  ∧ chat hi ana ana_world
    = (Return {| user := "Ana"; reply := Some "hello" |},
       after_call ana_world (completion_request ana hi)).
Proof.
  split; [reflexivity |].
  exact (proj1 (chat_success (env := demo_env) hi ana ana_world
                  {| choice_content := Some "hello" |} [] eq_refl)).
Defined.

Lemma chat_failure_witness :
  openai failing_world (completion_request ana hi)
  = ProviderError "RateLimitError" "quota exceeded"
  ∧ chat hi ana failing_world
    = (Raise (HTTPException 500 "OpenAI error: quota exceeded"),
       after_call failing_world (completion_request ana hi)).
Proof.
  split; [reflexivity |].
  exact (proj1 (proj1 (chat_failure (env := demo_env) hi ana failing_world)
                  "RateLimitError" "quota exceeded" eq_refl)).
Defined.

Lemma users_col_frame_witness :
  @reachable demo_env ana_world
    (snd (@handle demo_env (PostRegister register_bob) ana_world))
  ∧ users_col ana_world
    `prefix_of`
    users_col (snd (@handle demo_env (PostRegister register_bob) ana_world)).
Proof.
  assert (@reachable demo_env ana_world
            (snd (@handle demo_env (PostRegister register_bob) ana_world)))
    as Hr.
  { apply rtc_once. apply (step_request (PostRegister register_bob)). }
  split; [exact Hr |].
  destruct (users_col_frame (env := demo_env))
    as (_ & _ & _ & _ & _ & Hrun).
  exact (proj1 (Hrun _ _ Hr)).
Defined.

(** C10, counterexample to "a correctly signed, unexpired token without
    an email claim passes verification and is refused with User not
    found": a token signed with the secret, unexpired and without an
    email, whose not-before time lies a day ahead is refused by
    [decode_jwt], and the request with 401 "Invalid token"; so is one that
    names an audience. *)
Lemma post_chat_token_without_email_counterexample :
  (bearer (Some ("Bearer", anonymous_postdated_token))
          anonymous_postdated_token
   ∧ @well_signed demo_env anonymous_postdated_token
       (<["nbf" := VInt 1700086400]> (<["exp" := VInt 1700172800]> ∅))
   ∧ ¬ @exp_passed demo_env
         (<["nbf" := VInt 1700086400]> (<["exp" := VInt 1700172800]> ∅))
         (utcnow ana_world)
   ∧ (<["nbf" := VInt 1700086400]> (<["exp" := VInt 1700172800]> ∅)
      : Payload) !! "email" = None
   ∧ @decode_jwt demo_env anonymous_postdated_token ana_world
     = (Raise (HTTPException 401 "Invalid token"), ana_world)
   ∧ @post_chat demo_env (Some ("Bearer", anonymous_postdated_token)) hi
       ana_world
     = (Raise (HTTPException 401 "Invalid token"), ana_world))
  ∧ (bearer (Some ("Bearer", anonymous_audience_token))
            anonymous_audience_token
     ∧ @well_signed demo_env anonymous_audience_token
         (<["aud" := VStr "chat"]> (<["exp" := VInt 1700007200]> ∅))
     ∧ ¬ @exp_passed demo_env
           (<["aud" := VStr "chat"]> (<["exp" := VInt 1700007200]> ∅))
           (utcnow ana_world)
     ∧ (<["aud" := VStr "chat"]> (<["exp" := VInt 1700007200]> ∅)
        : Payload) !! "email" = None
     ∧ @decode_jwt demo_env anonymous_audience_token ana_world
       = (Raise (HTTPException 401 "Invalid token"), ana_world)
     ∧ @post_chat demo_env (Some ("Bearer", anonymous_audience_token)) hi
         ana_world
       = (Raise (HTTPException 401 "Invalid token"), ana_world)).
Proof.
  split.
  - split; [exists "Bearer"; repeat split; discriminate |].
    split; [by eexists _, _ |]. split; [|by repeat split].
    intros (v & x & Hv & Hx & Hle). vm_compute in Hv.
    injection Hv as <-. vm_compute in Hx. injection Hx as <-.
    vm_compute in Hle. by apply Hle.
  - split; [exists "Bearer"; repeat split; discriminate |].
    split; [by eexists _, _ |]. split; [|by repeat split].
    intros (v & x & Hv & Hx & Hle). vm_compute in Hv.
    injection Hv as <-. vm_compute in Hx. injection Hx as <-.
    vm_compute in Hle. by apply Hle.
Qed.

Lemma post_chat_token_without_email_witness :
  bearer (Some ("Bearer", anonymous_token)) anonymous_token
  ∧ @well_signed demo_env anonymous_token (<["exp" := VInt 1700007200]> ∅)
  ∧ @validate_claims demo_env (<["exp" := VInt 1700007200]> ∅)
      (utcnow ana_world) = JwtOk tt
  ∧ (<["exp" := VInt 1700007200]> ∅ : Payload) !! "email" = None
  ∧ @post_chat demo_env (Some ("Bearer", anonymous_token)) hi ana_world
    = (Raise (HTTPException 401 "User not found"), ana_world).
Proof.
  assert (bearer (Some ("Bearer", anonymous_token)) anonymous_token) as Hb.
  { exists "Bearer". repeat split. discriminate. }
  assert (@well_signed demo_env anonymous_token
            (<["exp" := VInt 1700007200]> ∅)) as Hs.
  { by eexists _, _. }
  split; [exact Hb |]. split; [exact Hs |].
  split; [reflexivity |]. split; [reflexivity |].
  destruct (post_chat_token_without_email (env := demo_env)
              (Some ("Bearer", anonymous_token)) anonymous_token hi ana_world
              (<["exp" := VInt 1700007200]> ∅) Hb Hs eq_refl eq_refl)
    as (_ & _ & _ & Hp & _).
  exact Hp.
Defined.

(** * Further properties of the code *)

(** ** Tokens over time *)

Section TokenTime.

Context {env : Environment}.

(** X1. The life of a token, for any number of hours.  Where Python can
    hold the expiry (the clock as first read plus the hours), [create_jwt]
    issues a token that is refused as invalid before its issue time (the
    clock as read second), accepted with the claims it was issued with
    from then up to, but not including, its expiry, and refused as expired
    from then on; with zero or negative hours it is never accepted.
    Where Python cannot hold the expiry, [create_jwt] raises
    [OverflowError] and the world is as before.  Two hours can always be
    held. *)
Theorem create_jwt_validity_window (e : string) (h : Z) (w w' : World) :
  let exp := first_reading w + h * 3600 in
  let p := claims_for e exp (utcnow w) in
  let tok := jwt_encode p SECRET_KEY in
  (representable h (first_reading w) →
   create_jwt e h w = (Return tok, w)
   ∧ decode_jwt tok w'
     = (if decide (utcnow w' < utcnow w)
        then Raise (HTTPException 401 "Invalid token")
        else if decide (utcnow w' < exp)
        then Return p
        else Raise (HTTPException 401 "Token expired"), w')
   ∧ (h ≤ 0 → ∀ q, fst (decode_jwt tok w') ≠ Return q))
  ∧ (¬ representable h (first_reading w) →
     ∃ text,
       create_jwt e h w = (Raise (PyException "OverflowError" text), w))
  ∧ representable 2 (first_reading w).
Proof.
  intros exp p tok.
  split; [|split; [apply create_jwt_overflow | apply representable_two_hours]].
  intros Hrep.
  assert (decode_jwt tok w'
          = (if decide (utcnow w' < utcnow w)
             then Raise (HTTPException 401 "Invalid token")
             else if decide (utcnow w' < exp)
             then Return p
             else Raise (HTTPException 401 "Token expired"), w')) as Hd.
  { unfold tok.
    rewrite (decode_jwt_well_signed _ _ _ (jwt_encode_well_signed _)).
    unfold p. rewrite validate_claims_claims_for.
    repeat case_decide; reflexivity. }
  split; [by apply create_jwt_representable |]. split; [exact Hd |].
  intros Hh q. rewrite Hd. simpl.
  pose proof (clock_bounds w) as (_ & Hle & _).
  repeat case_decide; try done. unfold exp in *. lia.
Qed.

Lemma validate_iat_later (p : Payload) (t t' : Z) :
  t ≤ t' → validate_iat p t = JwtOk tt → validate_iat p t' = JwtOk tt.
Proof.
  intros Hle. unfold validate_iat. destruct (p !! "iat") as [v|]; [|done].
  destruct (claim_int v InvalidIssuedAtError) as [x|err|n|]; simpl; try done.
  destruct (Z.ltb_spec t x); [done |]. intros _.
  by destruct (Z.ltb_spec t' x); [lia |].
Qed.

Lemma validate_nbf_later (p : Payload) (t t' : Z) :
  t ≤ t' → validate_nbf p t = JwtOk tt → validate_nbf p t' = JwtOk tt.
Proof.
  intros Hle. unfold validate_nbf. destruct (p !! "nbf") as [v|]; [|done].
  destruct (claim_int v DecodeError) as [x|err|n|]; simpl; try done.
  destruct (Z.ltb_spec t x); [done |]. intros _.
  by destruct (Z.ltb_spec t' x); [lia |].
Qed.

Lemma validate_exp_earlier (p : Payload) (t t' : Z) :
  t ≤ t' → validate_exp p t' = JwtOk tt → validate_exp p t = JwtOk tt.
Proof.
  intros Hle. unfold validate_exp. destruct (p !! "exp") as [v|]; [|done].
  destruct (claim_int v DecodeError) as [x|err|n|]; simpl; try done.
  destruct (Z.leb_spec x t'); [done |]. intros _.
  by destruct (Z.leb_spec x t); [lia |].
Qed.

Lemma exp_passed_later (p : Payload) (t t' : Z) :
  t ≤ t' → exp_passed p t → exp_passed p t'.
Proof. intros Hle (v & x & Hv & Hx & Hxt). exists v, x. repeat split; [done.. | lia]. Qed.

(** X2. Expiry is final: a token that [decode_jwt] refuses with "Token
    expired" at one time is refused with "Token expired" at every later
    time. *)
Theorem decode_jwt_expired_forever (tok : Token) (w w' : World) :
  utcnow w ≤ utcnow w' →
  fst (decode_jwt tok w) = Raise (HTTPException 401 "Token expired") →
  fst (decode_jwt tok w') = Raise (HTTPException 401 "Token expired").
Proof.
  intros Hle He. apply decode_jwt_expired in He as (p & Hs & Hiat & Hnbf & Hexp).
  apply decode_jwt_expired. exists p. split; [done |].
  split; [by eapply validate_iat_later |].
  split; [by eapply validate_nbf_later | by eapply exp_passed_later].
Qed.

Lemma validate_claims_ok (p : Payload) (t : Z) :
  validate_claims p t = JwtOk tt
  ↔ validate_iat p t = JwtOk tt ∧ validate_nbf p t = JwtOk tt
    ∧ validate_exp p t = JwtOk tt
    ∧ jwt_bind (validate_aud p) (fun _ =>
        jwt_bind (validate_sub p) (fun _ => validate_jti p)) = JwtOk tt.
Proof.
  unfold validate_claims. split.
  - destruct (validate_iat p t) as [[]|?|?|]; simpl; try done.
    destruct (validate_nbf p t) as [[]|?|?|]; simpl; try done.
    destruct (validate_exp p t) as [[]|?|?|]; simpl; try done.
  - intros (-> & -> & -> & H). exact H.
Qed.

Lemma decode_jwt_ok (tok : Token) (w : World) (p : Payload) :
  fst (decode_jwt tok w) = Return p
  ↔ well_signed tok p ∧ validate_claims p (utcnow w) = JwtOk tt.
Proof.
  split.
  - destruct tok as [raw|si h q s]; rewrite decode_jwt_eq; simpl; [done |].
    case_bool_decide as Halg; simpl; [|done].
    case_bool_decide as Hsig; simpl; [|done].
    destruct (validate_claims q (utcnow w)) as [[]|[]|n|] eqn:Hv; simpl; try done.
    intros [= <-]. split; [subst s; by exists si, h | done].
  - intros [Hs Hv]. by rewrite (decode_jwt_well_signed _ _ _ Hs), Hv.
Qed.

(** X3. The times at which a token is accepted form an interval: a token
    [decode_jwt] accepts at two times is accepted, with the same claims, at
    every time in between. *)
Theorem decode_jwt_accepted_between (tok : Token) (w1 w2 w3 : World)
        (p : Payload) :
  utcnow w1 ≤ utcnow w2 →
  utcnow w2 ≤ utcnow w3 →
  fst (decode_jwt tok w1) = Return p →
  fst (decode_jwt tok w3) = Return p →
  decode_jwt tok w2 = (Return p, w2).
Proof.
  intros H12 H23 [Hs H1]%decode_jwt_ok [_ H3]%decode_jwt_ok.
  apply validate_claims_ok in H1 as (Hiat & Hnbf & _ & Hrest).
  apply validate_claims_ok in H3 as (_ & _ & Hexp & _).
  rewrite (decode_jwt_well_signed _ _ _ Hs).
  assert (validate_claims p (utcnow w2) = JwtOk tt) as ->; [|done].
  apply validate_claims_ok.
  split; [by eapply validate_iat_later |].
  split; [by eapply validate_nbf_later |].
  split; [by eapply validate_exp_earlier | done].
Qed.

(** X4. Nothing makes a token carry an expiry: what [decode_jwt] answers
    for a token without exp, iat and nbf claims does not depend on the
    time, so that a token signed with the secret that carries only an
    email claim is accepted at all times. *)
Theorem decode_jwt_without_time_claims (si : string) (h : Header)
        (p : Payload) (s : string) (w w' : World) :
  p !! "exp" = None → p !! "iat" = None → p !! "nbf" = None →
  fst (decode_jwt (Jws si h p s) w') = fst (decode_jwt (Jws si h p s) w)
  ∧ ∀ e, decode_jwt (jwt_encode (<["email" := VStr e]> ∅) SECRET_KEY) w
         = (Return (<["email" := VStr e]> ∅), w).
Proof.
  intros Hexp Hiat Hnbf. split.
  - rewrite !decode_jwt_eq. simpl.
    unfold validate_claims, validate_iat, validate_nbf, validate_exp.
    by rewrite Hexp, Hiat, Hnbf.
  - intros e.
    by rewrite (decode_jwt_well_signed _ _ _ (jwt_encode_well_signed _)).
Qed.

End TokenTime.

(** ** Who reaches the handler *)

Section GateSoundness.

Context {env : Environment}.

Lemma security_inv (authorization : Authorization) (tok : Token)
      (w : World) :
  fst (security authorization w) = Return tok → bearer authorization tok.
Proof.
  unfold security. destruct authorization as [[scheme cred]|]; [|done].
  case_bool_decide as Hs; simpl; [done |].
  destruct (empty_credentials cred) eqn:Hc; simpl; [done |].
  case_bool_decide as Hl; simpl; [|done].
  intros [= ->]. exists scheme. split; [done |]. split; [done |].
  intros ->. by rewrite (proj2 (empty_credentials_spec _)) in Hc.
Qed.

Lemma dict_get_str (p : Payload) (k e : string) :
  dict_get p k = VStr e ↔ p !! k = Some (VStr e).
Proof.
  unfold dict_get. destruct (p !! k) as [v|]; simpl; [|done].
  split; congruence.
Qed.

(** What matches a document is its email as a string, or an operator
    document. *)
Lemma email_matches_inv (q : value) (u : User) :
  email_matches q u = true →
  q = VStr (email u)
  ∨ ∃ k v members, q = VObj ((k, v) :: members) ∧ is_operator k = true.
Proof.
  unfold email_matches, compile_filter.
  destruct (encodable q); simpl; [|done].
  destruct q as [| | | |s| |[|[k v] members]]; try done.
  - intros ->%bool_decide_eq_true. by left.
  - destruct (is_operator k) eqn:Hk; [|done]. intros _. right. eauto.
Qed.

Lemma get_current_user_inv (tok : Token) (w : World) (u : User) :
  fst (get_current_user tok w) = Return u →
  ∃ p, well_signed tok p
       ∧ validate_claims p (utcnow w) = JwtOk tt
       ∧ first_match (users_col w) (dict_get p "email") u.
Proof.
  rewrite get_current_user_eq. simpl.
  destruct (fst (decode_jwt tok w)) as [p|e] eqn:Hd; [|done].
  apply decode_jwt_ok in Hd as [Hs Hv].
  destruct (compile_filter _) as [text|test]; [done |].
  destruct (List.find _ _) as [u'|] eqn:Hf; [|done]. intros [= ->].
  exists p. split; [done |]. split; [done |]. by apply find_split.
Qed.

Lemma depends_get_current_user_inv (authorization : Authorization)
      (w : World) (u : User) :
  fst (depends_get_current_user authorization w) = Return u →
  ∃ tok p, bearer authorization tok
           ∧ well_signed tok p
           ∧ validate_claims p (utcnow w) = JwtOk tt
           ∧ first_match (users_col w) (dict_get p "email") u.
Proof.
  unfold depends_get_current_user, bind.
  pose proof (security_world authorization w) as Hw.
  destruct (security authorization w) as [[tok|e] w1] eqn:Hsec; [|done].
  simpl in Hw. subst w1. intros (p & Hp)%get_current_user_inv.
  exists tok, p. split; [|done]. apply (security_inv _ _ w). by rewrite Hsec.
Qed.

(** X5. The chat route is sound: whenever it answers with a chat response,
    or whenever it has called the provider at all, the request carried a
    bearer token that bears the MAC of the secret and whose claims are
    accepted at that time; the email claim of the token, used as it is as
    the filter of the lookup, resolves to a stored user, the first one it
    matches: it is the email of that user as a string, and then that user
    is the one stored under it, or it is an operator document, which the
    server evaluates as a query; the response names that user, and the
    one call made is the completion request for that user and that
    message. *)
Theorem post_chat_sound (authorization : Authorization) (req : ChatRequest)
        (w : World) :
  (∃ r, fst (post_chat authorization req w) = Return r)
  ∨ calls (snd (post_chat authorization req w)) ≠ calls w →
  ∃ tok p u,
    bearer authorization tok
    ∧ well_signed tok p
    ∧ validate_claims p (utcnow w) = JwtOk tt
    ∧ first_match (users_col w) (dict_get p "email") u
    ∧ (p !! "email" = Some (VStr (email u))
       ∧ stored_under (users_col w) (email u) u
       ∨ ∃ k v members,
           p !! "email" = Some (VObj ((k, v) :: members))
           ∧ is_operator k = true)
    ∧ calls (snd (post_chat authorization req w))
      = calls w ++ [completion_request u req]
    ∧ ∀ r, fst (post_chat authorization req w) = Return r → user r = name u.
Proof.
  intros Hran.
  destruct (fst (depends_get_current_user authorization w)) as [u|e] eqn:Hg.
  - destruct (depends_get_current_user_inv _ _ _ Hg)
      as (tok & p & Hb & Hs & Hv & Hm).
    exists tok, p, u. repeat (split; [done |]).
    split.
    { destruct Hm as (l1 & l2 & Hl & Hn & Hu).
      destruct (email_matches_inv _ _ Hu) as [Hq | (k & v & ms & Hq & Hk)].
      - left. split; [by apply dict_get_str |].
        rewrite Hq in Hn. exists l1, l2. split; [done |].
        split; [by apply no_match_str | done].
      - right. exists k, v, ms. split; [|done].
        unfold dict_get in Hq.
        destruct (p !! "email") as [q|]; simpl in Hq; by simplify_eq. }
    rewrite (post_chat_accepted _ _ _ _ Hg), chat_eq. split; [done |].
    simpl. intros r.
    destruct (openai w (completion_request u req)) as [cls text|[|c rest]];
      try done.
    by intros [= <-].
  - rewrite (post_chat_rejected _ _ _ _ Hg) in Hran. simpl in Hran.
    destruct Hran as [[r Hr] | Hc]; done.
Qed.

End GateSoundness.

(** ** Accounts along a run *)

Section AccountFacts.

Context {env : Environment}.

Lemma reachable_users_prefix (w w' : World) :
  reachable w w' → users_col w `prefix_of` users_col w'.
Proof.
  induction 1 as [w | w w1 w2 Hs _ IH]; [done |].
  etrans; [by apply step_users | done].
Qed.

Lemma stored_under_prefix (users users' : list User) (e : string) (u : User) :
  users `prefix_of` users' →
  stored_under users e u → stored_under users' e u.
Proof.
  intros [k ->] (l1 & l2 & -> & Hl1 & Hu).
  exists l1, (l2 ++ k). by rewrite <- app_assoc.
Qed.

Lemma stored_under_unique (users : list User) (e : string) (u u' : User) :
  stored_under users e u → stored_under users e u' → u = u'.
Proof. intros H1%find_stored_under H2%find_stored_under. congruence. Qed.

Lemma login_user_stored (req : LoginRequest) (w : World) (u : User) :
  stored_under (users_col w) (login_email req) u →
  login_user req w
  = (if decide (login_password req = password u)
     then Return {| login_message := "Login successful";
                    token := jwt_encode
                               (claims_for (login_email req)
                                           (first_reading w + 7200)
                                           (utcnow w))
                               SECRET_KEY |}
     else Raise (HTTPException 401 "Invalid credentials"), w).
Proof.
  intros Hu%find_stored_under. rewrite login_user_eq, Hu.
  case_bool_decide; case_decide; congruence.
Qed.

(** X6. Accounts are stable: along any run of the system the user stored
    under an email stays that same record, so that at every later point
    login with that email succeeds exactly with the password of that
    record; no later request, and no registration in particular, can
    change whom an email logs in. *)
Theorem stored_under_reachable (w w' : World) (e : string) (u : User) :
  reachable w w' →
  stored_under (users_col w) e u →
  stored_under (users_col w') e u
  ∧ ∀ pw,
      (∃ r, fst (login_user {| login_email := e; login_password := pw |} w')
            = Return r)
      ↔ pw = password u.
Proof.
  intros Hr Hu.
  assert (stored_under (users_col w') e u) as Hu'.
  { eapply stored_under_prefix; [by apply reachable_users_prefix | done]. }
  split; [done |]. intros pw.
  rewrite (login_user_stored {| login_email := e; login_password := pw |}
             w' u Hu'). simpl.
  case_decide; split; try done; [by eexists | by intros [r ?]].
Qed.

(** X7. Registration followed by login: once a registration for an
    unknown email has been served, a login with that email at any later
    point of the run returns a token for it (the claims email, exp = the
    clock as read for it plus 2h and iat = the clock as read after it,
    signed with the secret) when the password is the registered one,
    character for character, and fails with 401 "Invalid credentials" for
    every other password. *)
Theorem register_then_login (req : RegisterRequest) (w w2 : World)
        (pw : string) :
  unknown_email (users_col w) (reg_email req) →
  reachable (snd (register_user req w)) w2 →
  login_user {| login_email := reg_email req; login_password := pw |} w2
  = (if decide (pw = reg_password req)
     then Return {| login_message := "Login successful";
                    token := jwt_encode
                               (claims_for (reg_email req)
                                           (first_reading w2 + 7200)
                                           (utcnow w2))
                               SECRET_KEY |}
     else Raise (HTTPException 401 "Invalid credentials"), w2).
Proof.
  intros Hn Hr.
  set (doc := {| name := reg_name req; email := reg_email req;
                 password := reg_password req |}).
  assert (stored_under (users_col (snd (register_user req w)))
                       (reg_email req) doc) as Hu.
  { destruct (register_user_world req w) as [Hw | [_ ->]].
    - exfalso. apply find_str_none in Hn. revert Hw.
      unfold register_user, bind. rewrite find_one_str, Hn. simpl.
      intros Hw. apply (f_equal users_col) in Hw. simpl in Hw.
      apply (f_equal length) in Hw. rewrite length_app in Hw. simpl in Hw.
      lia.
    - exists (users_col w), []. done. }
  apply (stored_under_prefix _ (users_col w2)) in Hu;
    [|by apply reachable_users_prefix].
  by rewrite (login_user_stored
                {| login_email := reg_email req; login_password := pw |}
                w2 doc Hu).
Qed.

(** X8. Login followed by chat: the token a successful login returns,
    sent as bearer credentials (under any spelling of the scheme) at any
    later point of the run that comes before the expiry of the token (two
    hours after the clock was read for it), passes the gate and makes the
    chat handler run on the very record that logged in. *)
Theorem login_then_chat (lreq : LoginRequest) (creq : ChatRequest)
        (w w' : World) (u : User) (scheme : string) :
  stored_under (users_col w) (login_email lreq) u →
  password u = login_password lreq →
  reachable w w' →
  utcnow w' < first_reading w + 7200 →
  lower scheme = "bearer" →
  ∃ tok,
    login_user lreq w
    = (Return {| login_message := "Login successful"; token := tok |}, w)
    ∧ depends_get_current_user (Some (scheme, tok)) w' = (Return u, w')
    ∧ post_chat (Some (scheme, tok)) creq w' = chat creq u w'.
Proof.
  intros Hu Hpw Hr Hhi Hl.
  set (p := claims_for (login_email lreq) (first_reading w + 7200) (utcnow w)).
  exists (jwt_encode p SECRET_KEY).
  split.
  { rewrite (login_user_stored _ _ _ Hu). by rewrite decide_True. }
  assert (bearer (Some (scheme, jwt_encode p SECRET_KEY))
                 (jwt_encode p SECRET_KEY)) as Hb.
  { by exists scheme. }
  assert (depends_get_current_user (Some (scheme, jwt_encode p SECRET_KEY)) w'
          = (Return u, w')) as Hg.
  { rewrite (depends_bearer _ _ _ Hb).
    rewrite (get_current_user_accepted _ _ p).
    - change (dict_get p "email") with (VStr (login_email lreq)).
      apply (stored_under_prefix _ (users_col w')) in Hu;
        [|by apply reachable_users_prefix].
      apply find_stored_under in Hu. by rewrite Hu.
    - unfold p. by rewrite create_jwt_valid_along_runs.
    - apply accepted_str. }
  split; [exact Hg |]. apply post_chat_accepted. by rewrite Hg.
Qed.

Lemma handle_calls (rq : Request) (w : World) :
  calls (snd (handle rq w)) = calls w
  ∨ ∃ authorization req u,
      rq = PostChat authorization req
      ∧ calls (snd (handle rq w)) = calls w ++ [completion_request u req].
Proof.
  rewrite handle_world. destruct rq as [req|req|authorization req].
  - left. by destruct (register_user_world req w) as [-> | [_ ->]].
  - left. by rewrite login_user_world.
  - destruct (fst (depends_get_current_user authorization w)) as [u|e] eqn:Hg.
    + right. exists authorization, req, u.
      by rewrite (post_chat_accepted _ _ _ _ Hg), chat_world.
    + left. by rewrite (post_chat_rejected _ _ _ _ Hg).
Qed.

(** X10. The provider is called by the chat route only: registration and
    login never call it, serving one request adds at most one call to the
    log, and along any run the log of calls only grows at its end. *)
Theorem calls_log (w w' : World) :
  reachable w w' →
  calls w `prefix_of` calls w'
  ∧ (∀ req : RegisterRequest,
       calls (snd (register_user req w)) = calls w)
  ∧ (∀ req : LoginRequest, calls (snd (login_user req w)) = calls w)
  ∧ (∀ rq : Request,
       (length (calls (snd (handle rq w))) ≤ length (calls w) + 1)%nat
       ∧ (calls (snd (handle rq w)) ≠ calls w →
          ∃ authorization req, rq = PostChat authorization req)).
Proof.
  intros Hr. split.
  { induction Hr as [w | w w1 w2 Hs _ IH]; [done |].
    etrans; [|exact IH]. destruct Hs as [rq w | w now' elapsed' ok openai' _]; [|done].
    destruct (handle_calls rq w) as [-> | (a & req & u & _ & ->)]; [done |].
    by apply prefix_app_r. }
  split.
  { intros req. by destruct (register_user_world req w) as [-> | [_ ->]]. }
  split; [intros req; by rewrite login_user_world |].
  intros rq.
  destruct (handle_calls rq w) as [-> | (a & req & u & -> & ->)].
  - split; [lia | done].
  - split; [rewrite length_app; simpl; lia |]. intros _. by exists a, req.
Qed.

End AccountFacts.

(** ** Routing *)

Section RoutingFacts.

Import Routing.

Lemma allowed_single (x method : string) :
  allowed [x] method = bool_decide (method = x).
Proof.
  unfold allowed. apply bool_decide_ext. by rewrite list_elem_of_singleton.
Qed.

Lemma matches_Route (p : string) (x : string) (ms : list string)
      (ep : Endpoint) (method path : string) :
  matches (Route p (x :: ms) ep) method path
  = if matches_exact p path
    then if allowed (x :: ms) method then FULL else PARTIAL
    else NONE.
Proof.
  unfold matches. rewrite (bool_decide_eq_false_2 (x :: ms = [])) by done.
  by destruct (matches_exact p path), (allowed (x :: ms) method).
Qed.

Lemma handle_route_Route (p : string) (x : string) (ms : list string)
      (ep : Endpoint) (method : string) :
  handle_route (Route p (x :: ms) ep) method
  = if allowed (x :: ms) method then Call ep
    else MethodNotAllowed (x :: ms).
Proof.
  unfold handle_route. rewrite (bool_decide_eq_false_2 (x :: ms = [])) by done.
  by destruct (allowed (x :: ms) method).
Qed.

Lemma scan_full (rs : list BaseRoute) (method path : string)
      (partial partial' : option BaseRoute) (r : BaseRoute) :
  scan rs method path partial = (Some r, partial') →
  ∃ l1 l2, rs = l1 ++ r :: l2
           ∧ matches r method path = FULL
           ∧ Forall (fun r' => matches r' method path ≠ FULL) l1.
Proof.
  revert partial. induction rs as [|r0 rs IH]; intros partial; simpl; [done |].
  destruct (matches r0 method path) eqn:Hm.
  - intros (l1 & l2 & -> & Hr & Hl1)%IH. exists (r0 :: l1), l2.
    repeat split; [done |]. constructor; [congruence | done].
  - intros (l1 & l2 & -> & Hr & Hl1)%IH. exists (r0 :: l1), l2.
    repeat split; [done |]. constructor; [congruence | done].
  - intros [= <- <-]. by exists [], rs.
Qed.

Lemma scan_partial (rs : list BaseRoute) (method path : string)
      (partial : option BaseRoute) (r : BaseRoute) :
  scan rs method path partial = (None, Some r) →
  partial = Some r ∨ (r ∈ rs ∧ matches r method path = PARTIAL).
Proof.
  revert partial. induction rs as [|r0 rs IH]; intros partial; simpl.
  - intros [= ->]. by left.
  - destruct (matches r0 method path) eqn:Hm.
    + intros [-> | [Hin Hr]]%IH; [by left | right].
      split; [by right | done].
    + intros [Hp | [Hin Hr]]%IH.
      * destruct partial as [r1|]; [by left |]. injection Hp as <-.
        right. split; [by left | done].
      * right. split; [by right | done].
    + done.
Qed.

Lemma handle_route_partial (r : BaseRoute) (method path : string) :
  matches r method path = PARTIAL →
  ∃ ms, handle_route r method = MethodNotAllowed ms.
Proof.
  destruct r as [p ms ep|p app]; simpl.
  - destruct (matches_exact p path); [|done].
    destruct (negb (bool_decide (ms = [])) && negb (allowed ms method));
      [by eexists | done].
  - by destruct (matches_mount p path).
Qed.

Lemma router_not_home (method path : string) :
  router method path ≠ Call home.
Proof.
  unfold router. destruct (scan routes method path None) as [[r|] part] eqn:Hs.
  - apply scan_full in Hs as (l1 & l2 & Hrs & Hr & Hl1).
    assert (r ∈ routes) as Hin.
    { rewrite Hrs. apply elem_of_app. right. by left. }
    unfold routes in Hin.
    repeat (apply elem_of_cons in Hin as [-> | Hin]);
      try (rewrite handle_route_Route;
           match goal with |- context [allowed ?ms method] =>
             by destruct (allowed ms method) end);
      try done.
    + (* the route of [home]: the route of [serve_root] matches as well *)
      exfalso. unfold routes in Hrs.
      do 5 (destruct l1 as [|? l1]; [by simplify_eq/= |];
            simpl in Hrs; injection Hrs as <- Hrs;
            apply Forall_cons in Hl1 as [_ Hl1]).
      destruct l1 as [|? l1]; [by simplify_eq/= |].
      simpl in Hrs. injection Hrs as <- Hrs.
      apply Forall_cons in Hl1 as [Hroot _]. exact (Hroot Hr).
    + by apply elem_of_nil in Hin.
  - destruct part as [r|].
    + apply scan_partial in Hs as [? | [_ Hr]]; [done |].
      apply handle_route_partial in Hr as [ms ->]. done.
    + destruct (negb (bool_decide (path = "/"))); [|done].
      by destruct (matches_any _ _ _).
Qed.

Lemma preflight_response_not_call (requested : string) (ep : Endpoint) :
  preflight_response requested ≠ Call ep.
Proof. unfold preflight_response. by case_bool_decide. Qed.

(** X12. Two functions are registered for [GET /]; the router takes the
    first route that matches, so [GET /] is answered by [serve_root], with
    the file of the front end, and no request at all, whatever its method
    and path, is ever handed to [home], by the router or by the
    application as a whole. *)
Theorem home_never_called (method path : string) :
  router "GET" "/" = Call serve_root
  ∧ router method path ≠ Call home
  ∧ ∀ origin requested, application method path origin requested ≠ Call home.
Proof.
  split; [reflexivity |]. split; [apply router_not_home |].
  intros origin requested. unfold application.
  destruct origin as [o|], requested as [r|]; try apply router_not_home.
  case_bool_decide; [apply preflight_response_not_call | apply router_not_home].
Qed.

Ltac eval_matches :=
  repeat match goal with
  | |- context [matches_exact ?p ?q] =>
      let b := eval vm_compute in (matches_exact p q) in
      change (matches_exact p q) with b
  | |- context [matches_mount ?p ?q] =>
      let b := eval vm_compute in (matches_mount p q) in
      change (matches_mount p q) with b
  end.

Ltac route_by_method method m :=
  unfold router, routes; cbn [scan]; rewrite !matches_Route;
  unfold matches; eval_matches; cbn [scan]; rewrite !allowed_single;
  destruct (decide (method = m)) as [-> | ?];
  [ rewrite !bool_decide_eq_true_2 by done
  | rewrite !bool_decide_eq_false_2 by done ];
  cbn [scan]; rewrite handle_route_Route, allowed_single;
  [ by rewrite bool_decide_eq_true_2
  | by rewrite bool_decide_eq_false_2 ].

Lemma router_api (method path m : string) (ep : Endpoint) :
  (path, m, ep) ∈ api →
  router method path
  = (if decide (method = m) then Call ep else MethodNotAllowed [m]).
Proof.
  intros Hin. unfold api in Hin.
  repeat (apply elem_of_cons in Hin as [[= -> -> ->] | Hin]);
    [| | | |by apply elem_of_nil in Hin].
  - route_by_method method "POST".
  - route_by_method method "POST".
  - route_by_method method "POST".
  - route_by_method method "GET".
Qed.

(** X13. The three routes of the API answer POST only and the root
    answers GET only.  A CORS preflight (a request with an Origin header,
    the method OPTIONS and an Access-Control-Request-Method header) is
    answered by the middleware, in plain text, with 200 "OK" when the
    method it asks for is one of the seven the middleware allows and with
    400 "Disallowed CORS method" otherwise, and the router is not
    reached.  Any other request to one of these paths reaches the router:
    with the method of the route the endpoint is called, with any other
    method, HEAD included, the answer is 405 with the allowed method and
    the endpoint is not called. *)
Theorem router_methods (method path m : string) (ep : Endpoint)
        (origin requested : option string) :
  (path, m, ep) ∈ api →
  router method path
  = (if decide (method = m) then Call ep else MethodNotAllowed [m])
  ∧ application method path origin requested
    = match origin, requested with
      | Some _, Some r =>
          if decide (method = "OPTIONS")
          then if decide (r ∈ ALL_METHODS)
               then PlainTextResponse 200 "OK"
               else PlainTextResponse 400 "Disallowed CORS method"
          else if decide (method = m) then Call ep
               else MethodNotAllowed [m]
      | _, _ =>
          if decide (method = m) then Call ep else MethodNotAllowed [m]
      end.
Proof.
  intros Hin. pose proof (router_api method path m ep Hin) as Hr.
  split; [exact Hr |]. unfold application.
  destruct origin as [o|], requested as [r|]; try exact Hr.
  destruct (decide (method = "OPTIONS")) as [Ho|Ho].
  - rewrite bool_decide_eq_true_2 by done. unfold preflight_response.
    destruct (decide (r ∈ ALL_METHODS));
      [by rewrite bool_decide_eq_true_2 | by rewrite bool_decide_eq_false_2].
  - rewrite bool_decide_eq_false_2 by done. exact Hr.
Qed.

End RoutingFacts.

(** ** Start-up *)

Section StartupFacts.

Import Startup.

Lemma load_dotenv_lookup (os_environ dotenv : gmap string string)
      (key : string) :
  load_dotenv os_environ dotenv !! key = effective os_environ dotenv key.
Proof.
  unfold load_dotenv, effective. rewrite lookup_union.
  by destruct (os_environ !! key), (dotenv !! key).
Qed.

Lemma is_falsy_false (v : option string) :
  is_falsy v = false ↔ ∃ s, v = Some s ∧ s ≠ "".
Proof.
  destruct v as [s|]; simpl.
  - rewrite bool_decide_eq_false. split; [by exists s | by intros (? & [= <-] & ?)].
  - split; [done | by intros (? & ? & ?)].
Qed.

(** X11. The settings check of lines 14 to 22, on its own: it passes
    exactly when MONGO_URI, SECRET_KEY and OPENAI_API_KEY each have a
    non-empty value, the value being the one of the process environment
    if the variable is there and the one of the .env file otherwise, and
    then leaves these values as the settings, with DB_NAME "user_db" only
    when it is set in neither; in every other case it raises the
    [RuntimeError], in particular when the process sets a required
    variable to the empty string, whatever the .env file says.  Passing
    the check is necessary for the import of the module to succeed, not
    sufficient: lines 25 to 48 follow it. *)
Theorem load_settings_behaviour (os_environ dotenv : gmap string string) :
  (∀ st,
     load_settings os_environ dotenv = Return st
     ↔ ∃ m s k,
         effective os_environ dotenv "MONGO_URI" = Some m ∧ m ≠ ""
         ∧ effective os_environ dotenv "SECRET_KEY" = Some s ∧ s ≠ ""
         ∧ effective os_environ dotenv "OPENAI_API_KEY" = Some k ∧ k ≠ ""
         ∧ st = {| MONGO_URI := Some m;
                   DB_NAME := default "user_db"
                                (effective os_environ dotenv "DB_NAME");
                   SECRET_KEY := Some s;
                   OPENAI_API_KEY := Some k |})
  ∧ ((∀ st, load_settings os_environ dotenv ≠ Return st) →
     load_settings os_environ dotenv
     = Raise (PyException "RuntimeError"
                "❌ Missing required environment variables in .env"))
  ∧ (∀ key,
       key ∈ ["MONGO_URI"; "SECRET_KEY"; "OPENAI_API_KEY"] →
       os_environ !! key = Some "" →
       load_settings os_environ dotenv
       = Raise (PyException "RuntimeError"
                  "❌ Missing required environment variables in .env")).
Proof.
  unfold load_settings, getenv, getenv_default.
  rewrite !load_dotenv_lookup.
  split; [|split].
  - intros st.
    destruct (is_falsy (effective os_environ dotenv "MONGO_URI")) eqn:Hm;
    destruct (is_falsy (effective os_environ dotenv "SECRET_KEY")) eqn:Hs;
    destruct (is_falsy (effective os_environ dotenv "OPENAI_API_KEY")) eqn:Hk;
      simpl;
      try (split; [done |];
           intros (m & s & k & Hm' & ? & Hs' & ? & Hk' & ? & _);
           rewrite Hm', Hs', Hk' in *; simpl in *;
           repeat case_bool_decide; done).
    apply is_falsy_false in Hm as (m & Hm & ?).
    apply is_falsy_false in Hs as (s & Hs & ?).
    apply is_falsy_false in Hk as (k & Hk & ?).
    rewrite Hm, Hs, Hk. split.
    + intros [= <-]. by exists m, s, k.
    + intros (m' & s' & k' & [= <-] & _ & [= <-] & _ & [= <-] & _ & ->).
      done.
  - intros Hno.
    destruct (is_falsy _ || is_falsy _ || is_falsy _); [done |].
    by destruct (Hno _ eq_refl).
  - intros key Hkey Hempty.
    assert (is_falsy (effective os_environ dotenv key) = true) as Hf.
    { unfold effective. by rewrite Hempty. }
    repeat (apply elem_of_cons in Hkey as [-> | Hkey]);
      [| | |by apply elem_of_nil in Hkey];
      rewrite Hf; by rewrite ?orb_true_r.
Qed.

End StartupFacts.

(** ** The further properties at work *)

Lemma create_jwt_validity_window_witness :
  representable 2 (first_reading tick_world)
  ∧ @create_jwt demo_env "ana@x.com" 2 tick_world
    = (Return tick_token, tick_world)
  ∧ @decode_jwt demo_env tick_token midway_world
    = (Return (claims_for "ana@x.com" 1700007200 1700000001), midway_world)
  ∧ @decode_jwt demo_env tick_token long_after_world
    = (Raise (HTTPException 401 "Token expired"), long_after_world)
  ∧ ¬ representable 100000000 (first_reading ana_world)
  ∧ ∃ text,
      @create_jwt demo_env "ana@x.com" 100000000 ana_world
      = (Raise (PyException "OverflowError" text), ana_world).
Proof.
  assert (representable 2 (first_reading tick_world)) as Hrep.
  { exact (proj2 (proj2 (create_jwt_validity_window (env := demo_env)
                           "ana@x.com" 2 tick_world midway_world))). }
  assert (¬ representable 100000000 (first_reading ana_world)) as Hn.
  { intros (_ & _ & Hhi). vm_compute in Hhi. by apply Hhi. }
  split; [exact Hrep |].
  split.
  { exact (proj1 (proj1 (create_jwt_validity_window (env := demo_env)
                           "ana@x.com" 2 tick_world midway_world) Hrep)). }
  split.
  { exact (proj1 (proj2 (proj1 (create_jwt_validity_window (env := demo_env)
                                  "ana@x.com" 2 tick_world midway_world)
                           Hrep))). }
  split.
  { exact (proj1 (proj2 (proj1 (create_jwt_validity_window (env := demo_env)
                                  "ana@x.com" 2 tick_world long_after_world)
                           Hrep))). }
  split; [exact Hn |].
  exact (proj1 (proj2 (create_jwt_validity_window (env := demo_env)
                         "ana@x.com" 100000000 ana_world midway_world)) Hn).
Defined.

Lemma decode_jwt_expired_forever_witness :
  utcnow expired_world ≤ utcnow long_after_world
  ∧ fst (@decode_jwt demo_env ana_token expired_world)
    = Raise (HTTPException 401 "Token expired")
  ∧ fst (@decode_jwt demo_env ana_token long_after_world)
    = Raise (HTTPException 401 "Token expired").
Proof.
  assert (utcnow expired_world ≤ utcnow long_after_world) as Hle
    by (vm_compute; discriminate).
  split; [exact Hle |]. split; [reflexivity |].
  exact (decode_jwt_expired_forever (env := demo_env) ana_token
           expired_world long_after_world Hle eq_refl).
Defined.

Lemma decode_jwt_accepted_between_witness :
  utcnow ana_world ≤ utcnow midway_world
  ∧ utcnow midway_world ≤ utcnow later_world
  ∧ @decode_jwt demo_env ana_token midway_world
    = (Return (issued_payload "ana@x.com" 1700000000), midway_world).
Proof.
  assert (utcnow ana_world ≤ utcnow midway_world) as H12
    by (vm_compute; discriminate).
  assert (utcnow midway_world ≤ utcnow later_world) as H23
    by (vm_compute; discriminate).
  split; [exact H12 |]. split; [exact H23 |].
  exact (decode_jwt_accepted_between (env := demo_env) ana_token ana_world
           midway_world later_world (issued_payload "ana@x.com" 1700000000)
           H12 H23 eq_refl eq_refl).
Defined.

Lemma decode_jwt_without_time_claims_witness :
  email_only !! "exp" = None
  ∧ fst (@decode_jwt demo_env (@jwt_encode demo_env email_only "secret")
           long_after_world)
    = fst (@decode_jwt demo_env (@jwt_encode demo_env email_only "secret")
             ana_world)
  ∧ @decode_jwt demo_env (@jwt_encode demo_env email_only "secret")
      long_after_world
    = (Return email_only, long_after_world).
Proof.
  split; [reflexivity |].
  destruct (decode_jwt_without_time_claims (env := demo_env)
              (demo_serialize issued_header email_only) issued_header
              email_only
              (demo_hmac "secret" (demo_serialize issued_header email_only))
              long_after_world long_after_world eq_refl eq_refl eq_refl)
    as [_ Hall].
  split; [|exact (Hall "ana@x.com")].
  exact (proj1 (decode_jwt_without_time_claims (env := demo_env)
                  (demo_serialize issued_header email_only) issued_header
                  email_only
                  (demo_hmac "secret"
                     (demo_serialize issued_header email_only))
                  ana_world long_after_world eq_refl eq_refl eq_refl)).
Defined.

Lemma post_chat_sound_witness :
  (∃ r, fst (@post_chat demo_env (Some ("Bearer", operator_token)) hi
               ana_world) = Return r)
  ∧ ∃ tok p u,
      bearer (Some ("Bearer", operator_token)) tok
      ∧ @well_signed demo_env tok p
      ∧ @first_match demo_env (users_col ana_world) (dict_get p "email") u
      ∧ calls (snd (@post_chat demo_env (Some ("Bearer", operator_token)) hi
                      ana_world))
        = calls ana_world ++ [completion_request u hi].
Proof.
  assert (∃ r, fst (@post_chat demo_env (Some ("Bearer", operator_token)) hi
                      ana_world) = Return r)
    as Hr by (by eexists).
  split; [exact Hr |].
  destruct (post_chat_sound (env := demo_env)
              (Some ("Bearer", operator_token)) hi ana_world (or_introl Hr))
    as (tok & p & u & Hb & Hs & _ & Hm & _ & Hc & _).
  exists tok, p, u. repeat split; assumption.
Defined.

Lemma bob_world_reachable : @reachable demo_env ana_world bob_world.
Proof. apply rtc_once. apply (step_request (PostRegister register_bob)). Defined.

Lemma ana_stored : stored_under (users_col ana_world) "ana@x.com" ana.
Proof. exists [], []. repeat split. constructor. Defined.

Lemma stored_under_reachable_witness :
  @reachable demo_env ana_world bob_world
  ∧ stored_under (users_col ana_world) "ana@x.com" ana
  ∧ stored_under (users_col bob_world) "ana@x.com" ana.
Proof.
  split; [exact bob_world_reachable |]. split; [exact ana_stored |].
  exact (proj1 (stored_under_reachable (env := demo_env) ana_world bob_world
                  "ana@x.com" ana bob_world_reachable ana_stored)).
Defined.

Lemma register_then_login_witness :
  unknown_email (users_col empty_world) (reg_email register_ana)
  ∧ @reachable demo_env
      (snd (@register_user demo_env register_ana empty_world)) ana_world
  ∧ @login_user demo_env login_ana ana_world
    = (Return {| login_message := "Login successful"; token := ana_token |},
       ana_world)
  ∧ @login_user demo_env
      {| login_email := "ana@x.com"; login_password := "P1" |} ana_world
    = (Raise (HTTPException 401 "Invalid credentials"), ana_world).
Proof.
  assert (unknown_email (users_col empty_world) (reg_email register_ana))
    as Hn by constructor.
  assert (@reachable demo_env
            (snd (@register_user demo_env register_ana empty_world))
            ana_world) as Hr by apply rtc_refl.
  split; [exact Hn |]. split; [exact Hr |]. split.
  - exact (register_then_login (env := demo_env) register_ana empty_world
             ana_world "p1" Hn Hr).
  - exact (register_then_login (env := demo_env) register_ana empty_world
             ana_world "P1" Hn Hr).
Defined.

Lemma login_then_chat_witness :
  stored_under (users_col ana_world) (login_email login_ana) ana
  ∧ @reachable demo_env ana_world bob_world
  ∧ lower "BEARER" = "bearer"
  ∧ @post_chat demo_env (Some ("BEARER", ana_token)) hi bob_world
    = chat hi ana bob_world.
Proof.
  split; [exact ana_stored |]. split; [exact bob_world_reachable |].
  split; [reflexivity |].
  destruct (login_then_chat (env := demo_env) login_ana hi ana_world
              bob_world ana "BEARER" ana_stored eq_refl bob_world_reachable
              eq_refl eq_refl) as (tok & Hlogin & _ & Hchat).
  injection Hlogin as <-. exact Hchat.
Defined.

Lemma unique_emails_invariant_witness :
  @reachable demo_env ana_world bob_world
  ∧ NoDup (email <$> users_col ana_world)
  ∧ NoDup (email <$> users_col bob_world).
Proof.
  assert (NoDup (email <$> users_col ana_world)) as Hnd.
  { apply NoDup_singleton. }
  split; [exact bob_world_reachable |]. split; [exact Hnd |].
  exact (unique_emails_invariant (env := demo_env) ana_world bob_world
           bob_world_reachable Hnd).
Defined.

Lemma calls_log_witness :
  @reachable demo_env ana_world bob_world
  ∧ calls ana_world `prefix_of` calls bob_world.
Proof.
  split; [exact bob_world_reachable |].
  exact (proj1 (calls_log (env := demo_env) ana_world bob_world
                  bob_world_reachable)).
Defined.

Lemma load_settings_behaviour_witness :
  Startup.load_settings demo_os_environ demo_dotenv
  = Return {| Startup.MONGO_URI := Some "mongodb://db";
              Startup.DB_NAME := "user_db";
              Startup.SECRET_KEY := Some "secret";
              Startup.OPENAI_API_KEY := Some "key" |}
  ∧ Startup.load_settings (<["SECRET_KEY" := ""]> demo_os_environ)
      demo_dotenv
    = Raise (PyException "RuntimeError"
               "❌ Missing required environment variables in .env").
Proof.
  split.
  - apply (proj1 (load_settings_behaviour demo_os_environ demo_dotenv)).
    exists "mongodb://db", "secret", "key". repeat split; discriminate.
  - apply (proj2 (proj2 (load_settings_behaviour
                           (<["SECRET_KEY" := ""]> demo_os_environ)
                           demo_dotenv)) "SECRET_KEY").
    + apply elem_of_cons. right. apply elem_of_cons. by left.
    + reflexivity.
Defined.

Lemma router_methods_witness :
  ("/chat", "POST", Routing.chat) ∈ Routing.api
  ∧ Routing.application "OPTIONS" "/chat" (Some "https://app.example")
      (Some "POST")
    = Routing.PlainTextResponse 200 "OK"
  ∧ Routing.application "OPTIONS" "/chat" None None
    = Routing.MethodNotAllowed ["POST"]
  ∧ Routing.application "POST" "/chat" (Some "https://app.example") None
    = Routing.Call Routing.chat.
Proof.
  assert (("/chat", "POST", Routing.chat) ∈ Routing.api) as Hin.
  { unfold Routing.api. apply elem_of_cons. right.
    apply elem_of_cons. right. apply elem_of_cons. by left. }
  split; [exact Hin |]. split; [|split].
  - exact (proj2 (router_methods "OPTIONS" "/chat" "POST" Routing.chat
                    (Some "https://app.example") (Some "POST") Hin)).
  - exact (proj2 (router_methods "OPTIONS" "/chat" "POST" Routing.chat
                    None None Hin)).
  - exact (proj2 (router_methods "POST" "/chat" "POST" Routing.chat
                    (Some "https://app.example") None Hin)).
Defined.
